(** * Request orchestration layer of the image-editing client

    A shallow embedding of [services/geminiService.ts] (data-URL decoding,
    prompt assembly, the retrying transport, the response resolver) and of
    the worker pool of [components/ProfilePictureGenerator.tsx], followed
    by the properties the specification states about them. *)

From Stdlib Require Import ZArith NArith Ascii String Lia.
From stdpp Require Import base option list gmap.

Local Open Scope Z_scope.

(** ** JavaScript strings

    A JavaScript string is a sequence of UTF-16 code units.  The regular
    expression of the service has no [u] flag and [String.prototype.includes]
    and [trim] work on code units as well, so a string is a list of code
    units here. *)

Definition jsstring := list N.

(** An ASCII literal of the source text, as code units. *)
Definition js (s : string) : jsstring :=
  (fun a => N_of_ascii a) <$> list_ascii_of_string s.

(** The double quote, written by its code so that literals stay simple. *)
Definition dq : jsstring := [34%N].
(** Line feed, [\n] in the source's template literals. *)
Definition nl : jsstring := [10%N].

(** A template literal that spans several source lines: the lines joined
    by line feeds. *)
Fixpoint lines (ls : list jsstring) : jsstring :=
  match ls with
  | [] => []
  | [l] => l
  | l :: rest => l ++ nl ++ lines rest
  end.

Definition N_in (lo hi c : N) : bool := ((lo <=? c) && (c <=? hi))%N.

(** [\w] without the [i] and [u] flags: [A-Za-z0-9_]. *)
Definition is_word_char (c : N) : bool :=
  N_in 65 90 c || N_in 97 122 c || N_in 48 57 c || (c =? 95)%N.

(** ECMAScript LineTerminator: LF, CR, LS, PS.  [.] matches anything else. *)
Definition is_line_terminator (c : N) : bool :=
  ((c =? 10) || (c =? 13) || (c =? 8232) || (c =? 8233))%N.

(** ECMAScript WhiteSpace and LineTerminator, the code units that
    [String.prototype.trim] strips. *)
Definition is_js_space (c : N) : bool :=
  (N_in 9 13 c || (c =? 32) || (c =? 160) || (c =? 5760) || N_in 8192 8202 c
   || (c =? 8232) || (c =? 8233) || (c =? 8239) || (c =? 8287)
   || (c =? 12288) || (c =? 65279))%N.

Fixpoint trimStart (s : jsstring) : jsstring :=
  match s with
  | c :: rest => if is_js_space c then trimStart rest else s
  | [] => []
  end.

(** [s.trim()]. *)
Definition trim (s : jsstring) : jsstring :=
  rev (trimStart (rev (trimStart s))).

Definition js_eqb (a b : jsstring) : bool := bool_decide (a = b).

(** [s.startsWith(p)], used to spell out [includes]. *)
Fixpoint startsWith (s p : jsstring) {struct p} : bool :=
  match p, s with
  | [], _ => true
  | _ :: _, [] => false
  | a :: p', b :: s' => (a =? b)%N && startsWith s' p'
  end.

(** [s.includes(sub)]: does [sub] occur at some position of [s]. *)
Fixpoint includes (s sub : jsstring) : bool :=
  startsWith s sub ||
  match s with
  | [] => false
  | _ :: s' => includes s' sub
  end.

(** Removes a literal prefix, [None] when the input does not start with it. *)
Fixpoint strip_prefix (p s : jsstring) {struct p} : option jsstring :=
  match p, s with
  | [], _ => Some s
  | _ :: _, [] => None
  | a :: p', b :: s' => if (a =? b)%N then strip_prefix p' s' else None
  end.

(** The longest run of characters satisfying [f] at the head of [s], and
    what follows it. *)
Fixpoint span (f : N -> bool) (s : jsstring) : jsstring * jsstring :=
  match s with
  | c :: rest =>
      if f c then let '(run, tl) := span f rest in (c :: run, tl)
      else ([], s)
  | [] => ([], [])
  end.

(** ** The data-URL pattern

    [dataUrl.match(re)] for the regular expression every operation of the
    service uses: anchored at the start, the literal [data:], capture
    group 1 made of [image/] and one or more [\w], the literal [;base64,],
    capture group 2 made of any number of [.], anchored at the end.  The
    result is the pair of capture groups.  After [data:image/] the greedy
    [\w+] takes the longest run of word characters; a shorter run would be
    followed by a word character, never by the [;] the pattern requires
    next, so backtracking finds nothing else.  Group 2 has to reach the end
    of the input, which it does exactly when no line terminator is left. *)
Definition matchDataUrl (dataUrl : jsstring) : option (jsstring * jsstring) :=
  rest0 ← strip_prefix (js "data:") dataUrl;
  rest1 ← strip_prefix (js "image/") rest0;
  let '(subtype, rest2) := span is_word_char rest1 in
  match subtype with
  | [] => None
  | _ :: _ =>
      payload ← strip_prefix (js ";base64,") rest2;
      if forallb (fun c => negb (is_line_terminator c)) payload
      then Some (js "image/" ++ subtype, payload)
      else None
  end.

(** ** Requests, responses and thrown values *)

(** [Blob] of the SDK: both fields are optional in its type. *)
Record Blob := mkBlob { mimeType : option jsstring; data : option jsstring }.

(** [Part] of the SDK, with the two fields the service reads or writes. *)
Record Part := mkPart { text : option jsstring; inlineData : option Blob }.

Record Content := mkContent { parts : option (list Part) }.
Record Candidate := mkCandidate { content : option Content }.

(** [GenerateContentResponse].  [response_text] is the value of the SDK's
    [text] accessor, which the service reads as an opaque property. *)
Record GenerateContentResponse := mkResponse {
  candidates : option (list Candidate);
  response_text : option jsstring
}.

(** What [JSON.stringify] makes of a value: a text; [undefined] (for
    [undefined] itself, a function or a symbol); or an exception of its own
    (a cyclic object, a BigInt).  The last two carry the message of the
    [TypeError] that the engine raises, for [undefined] once a method is
    read off it. *)
Inductive Stringified :=
| JsonText (json : jsstring)
| JsonUndefined (typeError : jsstring)
| JsonThrows (typeError : jsstring).

(** What a [catch] clause can receive: an [Error] object with its
    [message], or some other value, given by what [JSON.stringify] makes
    of it. *)
Inductive Thrown :=
| JsError (message : jsstring)
| JsNonError (stringified : Stringified).

(** A value of the TypeScript type [any], for the third parameter of the
    face swap. *)
Inductive JsAny :=
| JsUndefined
| JsNull
| JsBool (b : bool)
| JsNumber (z : Z)
| JsString (s : jsstring).

(** The outcome of evaluating code that may throw. *)
Inductive Result (A : Type) :=
| Ok (a : A)
| Throw (e : Thrown).
Arguments Ok {A} a.
Arguments Throw {A} e.

(** [error instanceof Error ? error.message : JSON.stringify(error)] *)
Definition errorMessageOf (error : Thrown) : Stringified :=
  match error with
  | JsError message => JsonText message
  | JsNonError stringified => stringified
  end.

(** How a template literal prints a value that may be [undefined]. *)
Definition interpolate (v : option jsstring) : jsstring :=
  match v with
  | Some s => s
  | None => js "undefined"
  end.

(** The inline-image part the operations build from a decoded data URL. *)
Definition imagePartOf (mimeType base64Data : jsstring) : Part :=
  {| text := None;
     inlineData := Some {| mimeType := Some mimeType; data := Some base64Data |} |}.

Definition textPartOf (t : jsstring) : Part :=
  {| text := Some t; inlineData := None |}.

(** ** The world the service runs in

    The remote endpoint and the timer are the only effects.  The world is
    the log of what happened so far, oldest first; the endpoint is an
    oracle that answers the [n]-th invocation (counting from 0) for the
    parts it is given.  [console.error] and [console.log] are left out. *)

Inductive event :=
| EvCall (sent : list Part)
| EvSleep (ms : Z).

Definition World := list event.

Definition is_call (e : event) : bool :=
  match e with EvCall _ => true | EvSleep _ => false end.

Definition is_sleep (e : event) : bool :=
  match e with EvSleep _ => true | EvCall _ => false end.

(** How many times the endpoint has been invoked. *)
Definition call_count (w : World) : nat := length (List.filter is_call w).

(** The backoff delays waited so far, in order. *)
Definition delays (w : World) : list Z :=
  omap (fun e => match e with EvSleep ms => Some ms | EvCall _ => None end) w.

Definition Endpoint := nat -> list Part -> Result GenerateContentResponse.

(** Computations of the service: they read and extend the world and
    either return or throw. *)
Definition M (A : Type) := World -> Result A * World.

Definition ret {A} (a : A) : M A := fun w => (Ok a, w).
Definition throw {A} (e : Thrown) : M A := fun w => (Throw e, w).

Definition bind {A B} (m : M A) (k : A -> M B) : M B :=
  fun w =>
    match m w with
    | (Ok a, w') => k a w'
    | (Throw e, w') => (Throw e, w')
    end.

(** [try { m } catch (error) { handler }] *)
Definition try_catch {A} (m : M A) (handler : Thrown -> M A) : M A :=
  fun w =>
    match m w with
    | (Ok a, w') => (Ok a, w')
    | (Throw e, w') => handler e w'
    end.

(** A step that cannot touch the world. *)
Definition lift {A} (r : Result A) : M A := fun w => (r, w).

Declare Scope m_scope.
Delimit Scope m_scope with M.
Notation "'let!' x ':=' m 'in' k" := (bind m (fun x => k))
  (at level 10, x name, m at level 100, k at level 200) : m_scope.
Notation "'run!' m 'in' k" := (bind m (fun _ => k))
  (at level 10, m at level 100, k at level 200) : m_scope.
Local Open Scope m_scope.

(** [Array.prototype.map] with a callback that may throw: the first
    exception ends the traversal. *)
Fixpoint map_result {A B} (f : A -> Result B) (l : list A) : Result (list B) :=
  match l with
  | [] => Ok []
  | a :: rest =>
      match f a with
      | Throw e => Throw e
      | Ok b =>
          match map_result f rest with
          | Throw e => Throw e
          | Ok bs => Ok (b :: bs)
          end
      end
  end.

Section Service.

Variable endpoint : Endpoint.

(** [await ai.models.generateContent({ model, contents: { parts }, config })] *)
Definition generateContent (sent : list Part) : M GenerateContentResponse :=
  fun w => (endpoint (call_count w) sent, w ++ [EvCall sent]).

(** [await new Promise(resolve => setTimeout(resolve, delay))] *)
Definition sleep (delay : Z) : M unit :=
  fun w => (Ok tt, w ++ [EvSleep delay]).

(** *** Response resolver *)

(** [response.candidates?.[0]?.content?.parts] *)
Definition firstCandidateParts (response : GenerateContentResponse)
  : option (list Part) :=
  cs ← candidates response;
  c ← head cs;
  ct ← content c;
  parts ct.

(** [part => part.inlineData]: an object is truthy. *)
Definition hasInlineData (part : Part) : bool :=
  match inlineData part with Some _ => true | None => false end.

Definition noTextPlaceholder : jsstring := js "No text response received.".

(** [textResponse || 'No text response received.']: [undefined] and the
    empty string are both falsy. *)
Definition textOrPlaceholder (textResponse : option jsstring) : jsstring :=
  match textResponse with
  | Some (c :: s) => c :: s
  | Some [] | None => noTextPlaceholder
  end.

Definition dataUrlOf (b : Blob) : jsstring :=
  js "data:" ++ interpolate (mimeType b) ++ js ";base64," ++ interpolate (data b).

Definition processGeminiResponse (response : GenerateContentResponse)
  : Result jsstring :=
  let imagePartFromResponse :=
    ps ← firstCandidateParts response; List.find hasInlineData ps in
  match imagePartFromResponse ≫= inlineData with
  | Some b => Ok (dataUrlOf b)
  | None =>
      let textResponse := response_text response in
      Throw (JsError
        (js "The AI model responded with text instead of an image: " ++ dq
         ++ textOrPlaceholder textResponse ++ dq))
  end.

(** *** Retrying transport *)

Definition maxRetries : Z := 3.
Definition initialDelay : Z := 1000.

(** [errorMessage.includes('"code":500') || errorMessage.includes('INTERNAL')] *)
Definition hasInternalMarker (errorMessage : jsstring) : bool :=
  includes errorMessage (dq ++ js "code" ++ dq ++ js ":500")
  || includes errorMessage (js "INTERNAL").

(** The flag [isInternalError] of the [catch] block, for the thrown values
    for which the block gets as far as computing it. *)
Definition isInternalError (error : Thrown) : bool :=
  match errorMessageOf error with
  | JsonText errorMessage => hasInternalMarker errorMessage
  | JsonUndefined _ | JsonThrows _ => false
  end.

(** The body of the [for] loop, run for the attempt numbers still to
    come.  The loop counter is only changed by the loop header, so the
    attempts are [1, 2, ..., maxRetries]; [continue] is the recursive
    call, and leaving the loop reaches the final [throw].  The [catch]
    block is not guarded: when [JSON.stringify] throws, or gives
    [undefined] and [includes] is read off it, the [TypeError] leaves the
    block in place of the value that was caught. *)
Fixpoint attemptsFrom (todo : list Z) (sent : list Part)
  : M GenerateContentResponse :=
  match todo with
  | [] => throw (JsError (js "Gemini API call failed after all retries."))
  | attempt :: later =>
      try_catch (generateContent sent) (fun error =>
        match errorMessageOf error with
        | JsonThrows typeError => throw (JsError typeError)
        | JsonUndefined typeError => throw (JsError typeError)
        | JsonText errorMessage =>
            let isInternalError := hasInternalMarker errorMessage in
            if isInternalError && (attempt <? maxRetries) then
              let delay := initialDelay * 2 ^ (attempt - 1) in
              run! sleep delay in attemptsFrom later sent
            else throw error
        end)
  end.

Definition callImageModelWithRetry (sent : list Part)
  : M GenerateContentResponse :=
  attemptsFrom (seqZ 1 maxRetries) sent.

End Service.

(** ** Transformation operations *)

(** [additionalInstructions && additionalInstructions.trim() !== ''] for an
    optional string parameter: [undefined] and the empty string are falsy. *)
Definition hasInstructions (additionalInstructions : option jsstring) : bool :=
  match additionalInstructions with
  | None => false
  | Some [] => false
  | Some s => negb (js_eqb (trim s) [])
  end.

(** The block the operations append for a regeneration request. *)
Definition regenerationBlock (additionalInstructions : option jsstring) : jsstring :=
  nl ++ nl ++ js "**REGENERATION INSTRUCTIONS:**" ++ nl
  ++ interpolate additionalInstructions.

(** [if (cond) text += block] *)
Definition withInstructions (promptText : jsstring)
  (additionalInstructions : option jsstring) : jsstring :=
  if hasInstructions additionalInstructions
  then promptText ++ regenerationBlock additionalInstructions
  else promptText.

Definition invalidFormatMessage : jsstring :=
  js "Invalid image data URL format. Expected 'data:image/...;base64,...'".

(** The callback of [imageDataUrls.map] in [generateStyledImage], and the
    opening lines of the single-image operations. *)
Definition decodeImagePart (dataUrl : jsstring) : Result Part :=
  match matchDataUrl dataUrl with
  | None => Throw (JsError invalidFormatMessage)
  | Some (mimeType, base64Data) => Ok (imagePartOf mimeType base64Data)
  end.

(** The closed table of [generatePhotoBoothImage], an object literal
    indexed by the count. *)
Definition gridLayoutTable : gmap Z jsstring :=
  list_to_map
    [(4, js "2x2"); (6, js "2x3"); (8, js "2x4"); (9, js "3x3"); (12, js "3x4")].

Definition photoBoothPrompt (gridLayout : option jsstring) : jsstring :=
  lines [
    js "";
    js "**MISSION: Create a " ++ dq ++ js "Purikura" ++ dq ++ js " Style Photo Booth Collage**";
    js "";
    js "Your task is to create a single, cohesive image that looks like a photo strip or collage from a Japanese-style " ++ dq ++ js "Purikura" ++ dq ++ js " photo booth.";
    js "";
    js "**INPUT:**";
    js "You will receive a single image of a person. This person is the subject for the entire collage.";
    js "";
    js "**CRITICAL REQUIREMENTS:**";
    js "";
    js "1.  **SINGLE IMAGE OUTPUT:** The final output MUST be a single image file containing a grid of photos.";
    js "2.  **GRID LAYOUT:** Arrange the photos in a " ++ interpolate gridLayout ++ js " grid.";
    js "3.  **IDENTITY PRESERVATION:** The person in EVERY photo within the grid must be the **exact same person** from the input image. Their identity, facial features, and general appearance must be perfectly consistent.";
    js "4.  **POSE & EXPRESSION VARIETY:** Each photo in the grid must feature the person in a **different, cute, and playful pose or expression**. Think " ++ dq ++ js "aegyo" ++ dq ++ js " or " ++ dq ++ js "kawaii" ++ dq ++ js " styles:";
    js "    - Winking, peace signs, finger hearts, puffed cheeks, surprised looks, joyful laughter, etc.";
    js "5.  **AESTHETIC & DECORATION:** This is NOT a simple grid. You must apply a heavy " ++ dq ++ js "Purikura" ++ dq ++ js " aesthetic:";
    js "    - **Doodles & Stickers:** Overlay the image with cute, hand-drawn-style doodles. Examples: sparkles, stars, hearts, rainbows, funny animals, etc.";
    js "    - **Text:** Add short, cute, hand-written style text like " ++ dq ++ js "Hi!" ++ dq ++ js ", " ++ dq ++ js "LOOK!" ++ dq ++ js ", " ++ dq ++ js "Hello" ++ dq ++ js ", " ++ dq ++ js ":)" ++ dq ++ js ", etc.";
    js "    - **Background:** The overall background of the collage should be bright and cheerful, often a simple sky blue or a soft pastel color, consistent with the reference images provided by the user.";
    js "    - **Cohesive Style:** The person's clothing and the immediate background within each small photo should be consistent with the original input image, but the overall collage is a new, decorated creation.";
    js "6.  **FINAL IMAGE:** The result should be a fun, vibrant, and charming image that perfectly captures the playful spirit of a photo booth.";
    js ""
  ].

Definition faceSwapPrompt : jsstring :=
  lines [
    js "";
    js "**CRITICAL MISSION: Photorealistic Face Swap**";
    js "";
    js "You will be given two images.";
    js "-   **Image 1 (Source Image):** This is the main image. It contains the person, body, pose, clothing, and background that MUST be preserved.";
    js "-   **Image 2 (Face Source):** This image contains the face that you MUST transfer onto the person in Image 1.";
    js "";
    js "**UNBREAKABLE RULES:**";
    js "1.  **Identity Transfer:** You must extract the face from Image 2 and perfectly blend it onto the person in Image 1. The final image must have the body/pose/clothing/background of Image 1, but the face from Image 2.";
    js "2.  **Seamless Integration:** The swapped face must be seamlessly integrated. This means you must perfectly match the lighting, skin tone, shadows, perspective, and color grading of the original Source Image (Image 1).";
    js "3.  **Preserve Everything Else:** Everything in Image 1 EXCEPT for the face must remain unchanged. This includes hair (as much as possible), clothing, background, and overall composition.";
    js "4.  **No Watermarks/Artifacts:** The final output must be a clean, high-quality photograph with no visual artifacts.";
    js ""
  ].

(** The parts [generatePhotoBoothImage] assembles, up to [allParts]. *)
Definition photoBoothParts (imageDataUrl : jsstring) (count : Z)
  : Result (list Part) :=
  match matchDataUrl imageDataUrl with
  | None => Throw (JsError invalidFormatMessage)
  | Some (mimeType, base64Data) =>
      let imagePart := imagePartOf mimeType base64Data in
      let gridLayout := gridLayoutTable !! count in
      let promptText := photoBoothPrompt gridLayout in
      let textPart := textPartOf promptText in
      Ok [imagePart; textPart]
  end.

(** The parts [swapFacesInImage] assembles, up to [allParts]. *)
Definition swapFacesParts (sourceImageDataUrl targetFaceDataUrl : jsstring)
  (_unused : JsAny) (additionalInstructions : option jsstring)
  : Result (list Part) :=
  let sourceMatch := matchDataUrl sourceImageDataUrl in
  let faceMatch := matchDataUrl targetFaceDataUrl in
  match sourceMatch, faceMatch with
  | None, _ => Throw (JsError (js "Invalid source image data URL format."))
  | Some _, None => Throw (JsError (js "Invalid face source data URL format."))
  | Some (sourceMimeType, sourceBase64Data), Some (faceMimeType, faceBase64Data) =>
      let sourceImagePart := imagePartOf sourceMimeType sourceBase64Data in
      let faceImagePart := imagePartOf faceMimeType faceBase64Data in
      let promptText := withInstructions faceSwapPrompt additionalInstructions in
      let textPart := textPartOf promptText in
      Ok [sourceImagePart; faceImagePart; textPart]
  end.

Section Operations.

Variable endpoint : Endpoint.

(** The [try] block shared by all operations, with the operation's own
    wording in the [catch].  The template literal prints an [undefined]
    detail as a word; a [JSON.stringify] that throws leaves the block with
    its own [TypeError]. *)
Definition requestImage (failure : jsstring) (allParts : list Part) : M jsstring :=
  try_catch
    (let! response := callImageModelWithRetry endpoint allParts in
     lift (processGeminiResponse response))
    (fun error =>
       match errorMessageOf error with
       | JsonThrows typeError => throw (JsError typeError)
       | JsonText errorMessage =>
           throw (JsError (failure ++ js " Details: " ++ interpolate (Some errorMessage)))
       | JsonUndefined _ =>
           throw (JsError (failure ++ js " Details: " ++ interpolate None))
       end).

Definition generateStyledImage (prompt : jsstring) (imageDataUrls : list jsstring)
  (additionalInstructions : option jsstring) : M jsstring :=
  if (length imageDataUrls =? 0)%nat then
    throw (JsError (js "At least one image data URL is required."))
  else
    let! imageParts := lift (map_result decodeImagePart imageDataUrls) in
    let finalPrompt := withInstructions prompt additionalInstructions in
    let textPart := textPartOf finalPrompt in
    let allParts := imageParts ++ [textPart] in
    requestImage (js "The AI model failed to generate an image.") allParts.

Definition generatePhotoBoothImage (imageDataUrl : jsstring) (count : Z)
  : M jsstring :=
  let! allParts := lift (photoBoothParts imageDataUrl count) in
  requestImage (js "The AI model failed to generate the photo booth image.") allParts.

Definition swapFacesInImage (sourceImageDataUrl targetFaceDataUrl : jsstring)
  (_unused : JsAny) (additionalInstructions : option jsstring) : M jsstring :=
  let! allParts :=
    lift (swapFacesParts sourceImageDataUrl targetFaceDataUrl _unused
            additionalInstructions) in
  requestImage (js "The AI model failed to swap the face.") allParts.

End Operations.

(** ** Fan-out over the prompt list (ProfilePictureGenerator) *)

Record PromptItem := mkPromptItem { p_id : jsstring; prompt : jsstring }.

Inductive Status := pending | done | error.

(** [GeneratedImage]: [{ id, status, url?, error? }] *)
Record GeneratedImage := mkGeneratedImage {
  g_id : jsstring;
  status : Status;
  url : option jsstring;
  g_error : option jsstring
}.

(** What a worker is doing between two turns of the event loop: suspended
    at the [await] of [processSinglePrompt] for some item, or returned. *)
Inductive Worker :=
| Awaiting (promptItem : PromptItem)
| Finished.

Global Instance PromptItem_eq_dec : EqDecision PromptItem.
Proof. solve_decision. Defined.
Global Instance Worker_eq_dec : EqDecision Worker.
Proof. solve_decision. Defined.

(** The component state a batch touches: the shared [queue] array, the
    three worker closures and the [generatedImages] record, keyed by item
    id. *)
Record Pool := mkPool {
  queue : list PromptItem;
  workers : list Worker;
  generatedImages : gmap jsstring GeneratedImage
}.

Definition concurrencyLimit : nat := 3.

Section FanOut.

(** The outcome of awaiting [generateStyledImage(promptItem.prompt, [image])]
    for one item. *)
Variable operation : jsstring -> list jsstring -> Result jsstring.

(** [resizedImage], the value [resizeImageToAspectRatio] resolved to. *)
Variable resizedImage : jsstring.

(** The [try]/[catch] of [processSinglePrompt], once the awaited call has
    settled: the updater it hands to [setGeneratedImages]. *)
Definition processSinglePrompt (promptItem : PromptItem) (image : jsstring)
  (prev : gmap jsstring GeneratedImage) : gmap jsstring GeneratedImage :=
  match operation (prompt promptItem) [image] with
  | Ok resultUrl =>
      <[p_id promptItem :=
          {| g_id := p_id promptItem; status := done;
             url := Some resultUrl; g_error := None |}]> prev
  | Throw err =>
      let errorMessage :=
        match err with
        | JsError message => message
        | JsNonError _ => js "An unknown error occurred."
        end in
      <[p_id promptItem :=
          {| g_id := p_id promptItem; status := error;
             url := None; g_error := Some errorMessage |}]> prev
  end.

(** [promptsToUse.forEach(p => initialImages[p.id] = { status: 'pending', id: p.id })] *)
Definition initialImages (promptsToUse : list PromptItem)
  : gmap jsstring GeneratedImage :=
  foldl (fun acc p =>
           <[p_id p := {| g_id := p_id p; status := pending;
                          url := None; g_error := None |}]> acc)
        ∅ promptsToUse.

(** One pass through the head of a worker's [while] loop: with an item
    left it is shifted off the queue and awaited, otherwise the worker
    returns. *)
Definition workerLoop (q : list PromptItem) : Worker * list PromptItem :=
  match q with
  | [] => (Finished, [])
  | promptItem :: rest => (Awaiting promptItem, rest)
  end.

(** [Array(concurrencyLimit).fill(null).map(async () => ...)]: the
    workers start one after the other, each running up to its first
    [await]. *)
Fixpoint startWorkers (n : nat) (q : list PromptItem)
  : list Worker * list PromptItem :=
  match n with
  | O => ([], q)
  | S n' =>
      let '(w, q') := workerLoop q in
      let '(ws, q'') := startWorkers n' q' in
      (w :: ws, q'')
  end.

(** [handleGenerate] from [setGeneratedImages(initialImages)] up to
    [await Promise.all(workers)]. *)
Definition startBatch (promptsToUse : list PromptItem) : Pool :=
  let '(ws, q) := startWorkers concurrencyLimit promptsToUse in
  {| queue := q; workers := ws;
     generatedImages := initialImages promptsToUse |}.

(** The request worker [i] awaits settles: its item's cell is written and
    the worker goes round its loop again. *)
Definition settle (st : Pool) (i : nat) : Pool :=
  match workers st !! i with
  | Some (Awaiting promptItem) =>
      let imgs := processSinglePrompt promptItem resizedImage (generatedImages st) in
      let '(w, q) := workerLoop (queue st) in
      {| queue := q; workers := <[i := w]> (workers st); generatedImages := imgs |}
  | Some Finished | None => st
  end.

(** The network decides in which order the requests settle: a schedule
    names the worker whose request settles next. *)
Definition runSchedule (st : Pool) (schedule : list nat) : Pool :=
  foldl settle st schedule.

(** [Promise.all(workers)] has resolved: every worker returned. *)
Definition batchCompleted (st : Pool) : bool :=
  forallb (fun w => bool_decide (w = Finished)) (workers st).

(** The cell the specification expects for an item once its job is over. *)
Definition settledCell (p : PromptItem) : GeneratedImage :=
  match operation (prompt p) [resizedImage] with
  | Ok resultUrl =>
      {| g_id := p_id p; status := done; url := Some resultUrl; g_error := None |}
  | Throw (JsError message) =>
      {| g_id := p_id p; status := error; url := None; g_error := Some message |}
  | Throw (JsNonError _) =>
      {| g_id := p_id p; status := error; url := None;
         g_error := Some (js "An unknown error occurred.") |}
  end.

End FanOut.

(** ** Vocabulary of the specification *)

(** [sub] occurs somewhere in [s]. *)
Definition Contains (s sub : jsstring) : Prop :=
  exists before after, s = before ++ sub ++ after.

(** The textual shape [data:<mediaType>;base64,<payload>] with an image
    media type, read declaratively: [u] is that shape for the media type
    [m] and the payload [p]. *)
Definition DataUrlPattern (u m p : jsstring) : Prop :=
  exists subtype,
    subtype <> [] /\
    Forall (fun c => is_word_char c = true) subtype /\
    m = js "image/" ++ subtype /\
    Forall (fun c => is_line_terminator c = false) p /\
    u = js "data:" ++ m ++ js ";base64," ++ p.

(** The codec of the specification: [encode] is the template literal of
    the resolver, [decode] the pattern match of the operations. *)
Definition encode (mediaType payload : jsstring) : jsstring :=
  dataUrlOf {| mimeType := Some mediaType; data := Some payload |}.

Definition decode (encoded : jsstring) : option (jsstring * jsstring) :=
  matchDataUrl encoded.

(** A valid media type: [image/] and a subtype such as [png], [jpeg] or
    [webp]. *)
Definition validMediaType (m : jsstring) : bool :=
  match strip_prefix (js "image/") m with
  | Some (c :: w) => forallb is_word_char (c :: w)
  | Some [] | None => false
  end.

(** The base64 alphabet with its padding character. *)
Definition is_base64_char (c : N) : bool :=
  (N_in 65 90 c || N_in 97 122 c || N_in 48 57 c
   || (c =? 43) || (c =? 47) || (c =? 61))%N.

Definition validPayload (p : jsstring) : bool := forallb is_base64_char p.

(** The marker of a server-side fault in an error's detail. *)
Definition code500Marker : jsstring := dq ++ js "code" ++ dq ++ js ":500".

(** What the caller of the transport is handed for the endpoint's last
    answer: the answer itself, except that a thrown value which
    [JSON.stringify] cannot turn into text is replaced by the [TypeError]
    the [catch] block runs into. *)
Definition received (answer : Result GenerateContentResponse)
  : Result GenerateContentResponse :=
  match answer with
  | Ok response => Ok response
  | Throw (JsError message) => Throw (JsError message)
  | Throw (JsNonError (JsonText json)) => Throw (JsNonError (JsonText json))
  | Throw (JsNonError (JsonUndefined typeError)) => Throw (JsError typeError)
  | Throw (JsNonError (JsonThrows typeError)) => Throw (JsError typeError)
  end.

(** A refinement string that is non-empty after trimming. *)
Definition NonBlank (additionalInstructions : option jsstring) : Prop :=
  exists s, additionalInstructions = Some s /\ trim s <> [].

(** ** Sample collaborators *)

Definition pngUrl : jsstring := js "data:image/png;base64,iVBORw0KGgo=".
Definition jpegUrl : jsstring := js "data:image/jpeg;base64,/9j/4AAQ".

Definition sampleResponse : GenerateContentResponse :=
  {| candidates := Some [ {| content := Some {| parts := Some [
       textPartOf (js "Here is your image.");
       {| text := None;
          inlineData := Some {| mimeType := Some (js "image/png");
                                data := Some (js "QUJD") |} |};
       {| text := None;
          inlineData := Some {| mimeType := Some (js "image/jpeg");
                                data := Some (js "REVG") |} |} ] |} |} ];
     response_text := Some (js "Here is your image.") |}.

Definition proseResponse : GenerateContentResponse :=
  {| candidates := Some [ {| content := Some {| parts := Some [
       textPartOf (js "I cannot edit this photo.") ] |} |} ];
     response_text := Some (js "I cannot edit this photo.") |}.

(** An endpoint that always answers with [sampleResponse]. *)
Definition imageEndpoint : Endpoint := fun _ _ => Ok sampleResponse.

(** The detail of an internal server error, as the SDK reports it, with a
    serial number to tell the attempts apart. *)
Definition internalErrorMessage (n : nat) : jsstring :=
  js "{" ++ dq ++ js "error" ++ dq ++ js ":{" ++ code500Marker
  ++ js "," ++ dq ++ js "status" ++ dq ++ js ":" ++ dq ++ js "INTERNAL" ++ dq
  ++ js "}," ++ dq ++ js "attempt" ++ dq ++ js ":" ++ [(48 + N.of_nat n)%N]
  ++ js "}".

(** An endpoint whose every answer is an internal server error. *)
Definition internalErrorEndpoint : Endpoint :=
  fun n _ => Throw (JsError (internalErrorMessage n)).

(** An endpoint that rejects every request for a reason that is not a
    server fault. *)
Definition quotaEndpoint : Endpoint :=
  fun _ _ => Throw (JsError (js "429 RESOURCE_EXHAUSTED: quota exceeded")).

(** An endpoint that refuses the requests whose instruction mentions
    [style three] and serves all others. *)
Definition pickyEndpoint : Endpoint :=
  fun _ sent =>
    if existsb (fun p => match text p with
                         | Some t => includes t (js "style three")
                         | None => false
                         end) sent
    then Throw (JsError (js "400 INVALID_ARGUMENT: prompt rejected"))
    else Ok sampleResponse.

Definition fivePrompts : list PromptItem :=
  [ {| p_id := js "prompt1"; prompt := js "Portrait, style one" |};
    {| p_id := js "prompt2"; prompt := js "Portrait, style two" |};
    {| p_id := js "prompt3"; prompt := js "Portrait, style three" |};
    {| p_id := js "prompt4"; prompt := js "Portrait, style four" |};
    {| p_id := js "prompt5"; prompt := js "Portrait, style five" |} ].

(** [generateStyledImage(prompt, [image])] as the worker pool awaits it,
    against [pickyEndpoint]. *)
Definition pickyOperation (prompt : jsstring) (images : list jsstring)
  : Result jsstring :=
  fst (generateStyledImage pickyEndpoint prompt images None []).

(** ** Invariant of a running batch *)

Definition is_awaiting (w : Worker) : bool :=
  match w with Awaiting _ => true | Finished => false end.

(** The work a batch still has to do: the items queued and the requests in
    flight. *)
Definition outstanding (st : Pool) : nat :=
  (length (queue st) + length (List.filter is_awaiting (workers st)))%nat.

(** What holds between two turns of the event loop while a batch over
    [promptsToUse] runs: the queue and the workers only hold items of the
    batch; every item of the batch is queued, in flight, or has its cell
    written with the outcome of its own operation; a worker returns only
    once the queue is empty; and the pool keeps its workers. *)
Record PoolInv (operation : jsstring -> list jsstring -> Result jsstring)
  (resizedImage : jsstring) (promptsToUse : list PromptItem) (st : Pool)
  : Prop := mkPoolInv {
  inv_known : forall p,
      p ∈ queue st \/ Awaiting p ∈ workers st -> p ∈ promptsToUse;
  inv_progress : forall p,
      p ∈ promptsToUse ->
      p ∈ queue st \/ Awaiting p ∈ workers st \/
      generatedImages st !! p_id p = Some (settledCell operation resizedImage p);
  inv_drained : Finished ∈ workers st -> queue st = [];
  inv_workers : length (workers st) = concurrencyLimit
}.

(** ** The other operations of the service *)

Definition extractOutfitPrompt : jsstring :=
  lines [
    js "Your single, most important task is to perform a perfect extraction of the entire outfit from the person in the image and create a professional 'flat lay' or 'ghost mannequin' style product photograph.";
    js "";
    js "**MANDATORY PROCESS:**";
    js "";
    js "1.  **IDENTIFY THE FULL OUTFIT:** Carefully identify every single piece of apparel and accessory worn by the person. This includes, but is not limited to:";
    js "    - Top (shirt, blouse, t-shirt, etc.)";
    js "    - Bottoms (pants, jeans, skirt, shorts, etc.)";
    js "    - Dresses or jumpsuits";
    js "    - Outerwear (jacket, coat, blazer, etc.)";
    js "    - Footwear (shoes, boots, sandals, etc.)";
    js "    - Accessories (hat, scarf, belt, bag, jewelry, glasses, etc.)";
    js "";
    js "2.  **PERFORM COMPLETE EXTRACTION:** You must extract all identified items. The extraction must be clean and precise, following the exact contours of the clothing.";
    js "";
    js "3.  **ABSOLUTE HUMAN REMOVAL:** It is **critically important** that you remove **100%** of the person from the final image. There must be **ZERO** human elements present. This includes:";
    js "    - NO skin, hair, face, or any body parts.";
    js "    - NO hands, fingers, feet, or toes.";
    js "    - The final image should look as if the clothes are floating or laid out, with no person inside them.";
    js "";
    js "4.  **CREATE THE PRODUCT SHOT:**";
    js "    - Arrange the extracted clothing and accessories neatly and logically on a completely plain, solid, light grey background (hex code: #f0f0f0).";
    js "    - The final image must look like a high-end e-commerce product photo. It must be clean, professional, and focused solely on the apparel."
  ].

Definition fillMaskedPrompt (prompt : jsstring) : jsstring :=
  lines [
    js "Your task is to perform photorealistic inpainting. You will be given an image with a transparent area. Your goal is to fill in this transparent region based on the user's prompt.";
    js "";
    js "**CRITICAL INSTRUCTIONS:**";
    js "1.  Identify the transparent region in the provided image. This is the only area you should modify.";
    js "2.  Fill this transparent area with content that matches the user's prompt.";
    js "3.  **Seamless Integration:** The newly generated content must blend perfectly with the surrounding, non-transparent parts of the image. You must accurately match the existing lighting, shadows, perspective, color grading, and textures.";
    js "4.  The final result must be a complete, opaque, and realistic image.";
    js "";
    js "**PROMPT:** " ++ dq ++ prompt ++ dq
  ].

Definition removeObjectPrompt : jsstring :=
  lines [
    js "You are an expert photorealistic inpainting model. You will be given an image with a transparent area that marks an object to be removed.";
    js "";
    js "**CRITICAL TASK:**";
    js "Your primary task is to seamlessly and realistically fill this transparent region. Reconstruct the background and any elements that would logically be behind the removed object.";
    js "";
    js "**CONTEXT-AWARE RECONSTRUCTION:**";
    js "- The final result MUST be a plausible and coherent image.";
    js "- If the transparent area slightly overlaps a person or a foreground object that should be kept, prioritize the logical reconstruction of that person or object. For example, if a user masks an object a person is holding, and the mask slightly covers their hand, you should remove the object and reconstruct the hand naturally.";
    js "- You MUST perfectly match the original image's lighting, shadows, perspective, color grading, and texture for a seamless blend.";
    js "- The final output should be a complete, opaque image with no trace of the removed object or any visual artifacts."
  ].

Definition backgroundFromConceptPrompt : jsstring :=
  lines [
    js "You are an expert photorealistic inpainting model. Your task is to identify the primary person in the provided image, completely remove them, and seamlessly reconstruct the background that was behind them.";
    js "";
    js "**CRITICAL TASK:**";
    js "- The final image must **only** contain the background scene.";
    js "- There should be **no trace** of the removed person.";
    js "- The reconstruction must be context-aware and perfectly match the original image's lighting, shadows, perspective, color grading, and texture for a seamless blend.";
    js "- The final output should be a complete, plausible, and coherent image of the environment."
  ].

Definition removeBackgroundPrompt : jsstring :=
  lines [
    js "You are a world-class background removal AI. Your task is to perfectly isolate an object or person from an image based on a visual cue.";
    js "";
    js "**INPUT:**";
    js "You will receive an image containing a red circular marker. This marker points to the subject you need to isolate.";
    js "";
    js "**CORE TASK:**";
    js "1.  **Subject Identification:** Locate the red marker. The primary object or person that the marker is on top of is the " ++ dq ++ js "subject" ++ dq ++ js ".";
    js "2.  **Precise Segmentation:** Create a pixel-perfect segmentation mask for the *entire* subject. For example, if the marker is on a person's shirt, you must segment the entire person (head, hair, clothes, limbs, etc.). If it's on a flower in a vase, segment all the flowers and the vase as a single subject.";
    js "3.  **Output Generation:** Create a new PNG image with the same dimensions as the input.";
    js "    - The segmented subject must be perfectly preserved.";
    js "    - Everything that is NOT the subject (i.e., the background) must be replaced with a solid, pure white color (#FFFFFF).";
    js "    - The red marker must NOT be in the final output image.";
    js "";
    js "**QUALITY REQUIREMENTS:**";
    js "- The edges of the subject must be clean and sharp. No blurry or jagged edges.";
    js "- Hair and other fine details must be handled with extreme precision.";
    js "- The final image must contain only the isolated subject on a pure white background."
  ].

Definition cloneEffectPrompt : jsstring :=
  lines [
    js "";
    js "**MISSION: Create a " ++ dq ++ js "Clone Effect" ++ dq ++ js " or " ++ dq ++ js "Multiplicity" ++ dq ++ js " photograph.**";
    js "";
    js "Your task is to take a single person from the provided image and duplicate them multiple times within the same scene, creating a surreal and artistic photograph.";
    js "";
    js "**INPUT:**";
    js "You will receive a single image containing one person.";
    js "";
    js "**CRITICAL REQUIREMENTS:**";
    js "";
    js "1.  **IDENTIFY & PRESERVE:** Identify the primary person in the image. The person in EVERY clone within the final photo must be the **exact same person**. Their identity, facial features, and clothing must be perfectly consistent.";
    js "";
    js "2.  **DUPLICATE & POSE:** Create between 5 and 7 clones of this person. Each clone MUST be in a **different, dynamic, and interesting pose**. The poses should interact with the environment naturally. Avoid repetitive or static poses.";
    js "";
    js "3.  **COHESIVE SCENE:**";
    js "    - The background and environment must be an extension or re-imagination of the original photo's scene. It should feel like a single, unified location.";
    js "    - All clones must be logically placed within this scene, as if they were all photographed together at the same time.";
    js "    - The lighting, shadows, color grading, and overall photographic style must be consistent across the entire image, including all clones and the background, to create a believable and seamless composition.";
    js "";
    js "4.  **FINAL IMAGE:** The output must be a single, high-quality, photorealistic image. It should look like a professional and creative photoshoot."
  ].


(** What the browser does for [drawMarkerOnImage]: whether the image
    loads, and with which natural size; whether a canvas of that size
    gives a 2d context; and the text [canvas.toDataURL('image/png')] yields
    once the image and the marker at [(x, y)] have been drawn. *)
Record Browser (Coord : Type) := mkBrowser {
  loadImage : jsstring -> option (Z * Z);
  getContext2d : Z -> Z -> bool;
  toDataURL : jsstring -> Z -> Z -> Coord -> Coord -> jsstring
}.
Arguments loadImage {Coord} _ _.
Arguments getContext2d {Coord} _ _ _.
Arguments toDataURL {Coord} _ _ _ _ _ _.

(** The promise [drawMarkerOnImage] returns, once settled. *)
Definition drawMarkerOnImage {Coord : Type} (browser : Browser Coord)
  (imageDataUrl : jsstring) (x y : Coord) : Result jsstring :=
  match loadImage browser imageDataUrl with
  | None => Throw (JsError (js "Failed to load image for drawing marker."))
  | Some (naturalWidth, naturalHeight) =>
      if getContext2d browser naturalWidth naturalHeight
      then Ok (toDataURL browser imageDataUrl naturalWidth naturalHeight x y)
      else Throw (JsError (js "Could not get canvas context"))
  end.

Section SingleImageOperations.

Variable endpoint : Endpoint.

Definition extractOutfitFromImage (imageDataUrl : jsstring)
  (additionalInstructions : option jsstring) : M jsstring :=
  match matchDataUrl imageDataUrl with
  | None => throw (JsError invalidFormatMessage)
  | Some (mimeType, base64Data) =>
      let imagePart := imagePartOf mimeType base64Data in
      let promptText := withInstructions extractOutfitPrompt additionalInstructions in
      let textPart := textPartOf promptText in
      let allParts := [imagePart; textPart] in
      requestImage endpoint (js "The AI model failed to extract the outfit.") allParts
  end.

Definition fillMaskedImage (prompt maskedImageDataUrl : jsstring)
  (additionalInstructions : option jsstring) : M jsstring :=
  match matchDataUrl maskedImageDataUrl with
  | None => throw (JsError invalidFormatMessage)
  | Some (mimeType, base64Data) =>
      let imagePart := imagePartOf mimeType base64Data in
      let promptText :=
        withInstructions (fillMaskedPrompt prompt) additionalInstructions in
      let textPart := textPartOf promptText in
      let allParts := [imagePart; textPart] in
      requestImage endpoint (js "The AI model failed to generate an image.") allParts
  end.

Definition removeObjectFromImage (maskedImageDataUrl : jsstring) : M jsstring :=
  match matchDataUrl maskedImageDataUrl with
  | None => throw (JsError invalidFormatMessage)
  | Some (mimeType, base64Data) =>
      let imagePart := imagePartOf mimeType base64Data in
      let textPart := textPartOf removeObjectPrompt in
      let allParts := [imagePart; textPart] in
      requestImage endpoint (js "The AI model failed to remove the object.") allParts
  end.

Definition generateBackgroundFromConcept (conceptImageDataUrl : jsstring)
  : M jsstring :=
  match matchDataUrl conceptImageDataUrl with
  | None => throw (JsError invalidFormatMessage)
  | Some (mimeType, base64Data) =>
      let imagePart := imagePartOf mimeType base64Data in
      let textPart := textPartOf backgroundFromConceptPrompt in
      let allParts := [imagePart; textPart] in
      requestImage endpoint (js "The AI model failed to generate the background.")
        allParts
  end.

Definition generateCloneEffectImage (imageDataUrl : jsstring)
  (additionalInstructions : option jsstring) : M jsstring :=
  match matchDataUrl imageDataUrl with
  | None => throw (JsError invalidFormatMessage)
  | Some (mimeType, base64Data) =>
      let imagePart := imagePartOf mimeType base64Data in
      let promptText := withInstructions cloneEffectPrompt additionalInstructions in
      let textPart := textPartOf promptText in
      let allParts := [imagePart; textPart] in
      requestImage endpoint
        (js "The AI model failed to generate the clone effect image.") allParts
  end.

Definition removeBackgroundFromImageAtPoint {Coord : Type}
  (browser : Browser Coord) (imageDataUrl : jsstring) (x y : Coord) : M jsstring :=
  let! imageWithMarkerDataUrl := lift (drawMarkerOnImage browser imageDataUrl x y) in
  match matchDataUrl imageWithMarkerDataUrl with
  | None => throw (JsError (js "Invalid image data URL after drawing marker."))
  | Some (mimeType, base64Data) =>
      let imagePart := imagePartOf mimeType base64Data in
      let textPart := textPartOf removeBackgroundPrompt in
      let allParts := [imagePart; textPart] in
      requestImage endpoint (js "The AI model failed to remove the background.")
        allParts
  end.

End SingleImageOperations.

(** ** Component values *)

(** Truthiness of a value of type [string | null] (or of an optional
    string): [null], [undefined] and the empty string are falsy. *)
Definition truthy (v : option jsstring) : bool :=
  match v with
  | Some (_ :: _) => true
  | Some [] | None => false
  end.

(** [a || b] on such values. *)
Definition orValue (a b : option jsstring) : option jsstring :=
  if truthy a then a else b.

(** [a || b] on strings. *)
Definition orString (a b : jsstring) : jsstring :=
  match a with
  | [] => b
  | _ :: _ => a
  end.

Inductive Gender := male | female.

(** ** ProfilePictureGenerator: the prompt table and regeneration *)

Definition basePrompts : list PromptItem :=
  [
    {| p_id := js "prompt1";
       prompt := js "Vertical portrait, 1080x1920. Keep the same facial features. Subject wearing a black blazer. Dramatic cinematic lighting - a narrow beam of warm sunlight passes through a window slit or blinds, casting a diagonal band of light across the subject" ++ [8217%N] ++ js "s face while the rest remains in deep shadow. Approximately one-third of the face and upper body are illuminated, the rest fading into darkness, creating a mysterious and elegant chiaroscuro effect. Background: deep, saturated crimson red, softly textured, with subtle falloff of light. Camera angle: slightly low and centered, emphasizing jawline and neck for quiet dominance and sculptural elegance. The mood is moody and sophisticated, evoking a timeless cinematic portrait - interplay of sunlight and shadow forming a natural frame on the face. Ultra-realistic skin texture, soft transitions between light and shadow, no harsh reflections, no text." |};
    {| p_id := js "prompt2";
       prompt := js "Vertical portrait, 1080x1920. Keep the same facial features. Subject wearing a black blazer. Stark cinematic lighting with strong contrast. Shot from a slightly low, upward angle to emphasize jawline and neck, evoking quiet dominance and sculptural elegance. Deep, saturated crimson red background for bold contrast against luminous skin and dark wardrobe." |};
    {| p_id := js "prompt3";
       prompt := js "Stylish fashion editorial photo of this model wearing an oversized white sweatshirt and white sweatpants, paired with white sneakers. A soft red studio backdrop with soft cinematic lighting, highlighting textures, futuristic editorial style, model sitting elegantly, head slightly tilted, relaxed posture." |}
  ].

Definition femalePrompts : list PromptItem :=
  [
    {| p_id := js "prompt4";
       prompt := js "A hyper-realistic black-white studio portrait of the same woman in the uploaded personal photo. Keep her actual face and features exactly the same without any changes. She is sitting on a simple round stool, leaning slightly forward with her elbow resting on her knee, her head tilted and supported gently by her hand. She has a calm, soft expression. She is wearing a fitted sleeveless white ribbed tank top and high-waist denim jeans with stitched lettering detail." |};
    {| p_id := js "prompt5";
       prompt := js "Transform the reference image into a vertical portrait shot in 1080" ++ [215%N] ++ js "1920 format, maintaining the exact same facial features (do not alter the face). Convert the photo to black and white with dramatic studio lighting and deep shadows to create a bold, fashion editorial look. The subject is wearing a sleek black suit, with natural-style makeup tones that enhance facial details subtly. Hair is styled in a loose, low updo for a chic and modern feel. Shot with an 85mm portrait lens, shallow depth of field, ultra sharp facial details, smooth skin texture, soft gradient background blur." ++ nl ++ nl ++ js "Lighting should mimic high-end studio photography with contrast and mood, evoking a magazine editorial aesthetic." ++ nl ++ nl ++ js "Clean, stylish, elegant, and powerful." |}
  ].

Definition malePrompts : list PromptItem :=
  [
    {| p_id := js "prompt4";
       prompt := js "A hyper-realistic black-white studio portrait of the same man in the uploaded personal photo. Keep his actual face and features exactly the same without any changes. He is sitting on a simple round stool, leaning slightly forward with his elbow resting on his knee, his head tilted and supported gently by his hand. He has a calm, thoughtful expression. He is wearing a classic, well-fitted plain white crew-neck t-shirt and dark denim jeans." |};
    {| p_id := js "prompt5";
       prompt := js "Transform the reference image into a vertical portrait shot in 1080" ++ [215%N] ++ js "1920 format, maintaining the exact same facial features (do not alter the face). Convert the photo to black and white with dramatic studio lighting and deep shadows to create a bold, fashion editorial look. The subject is wearing a sleek black suit, with no makeup and natural skin texture. Hair is styled neatly for a sharp and modern feel. Shot with an 85mm portrait lens, shallow depth of field, ultra sharp facial details, smooth skin texture, soft gradient background blur." ++ nl ++ nl ++ js "Lighting should mimic high-end studio photography with contrast and mood, evoking a magazine editorial aesthetic." ++ nl ++ nl ++ js "Clean, stylish, elegant, and powerful." |}
  ].


(** [getPrompts(gender)]: the three shared prompts followed by the two of
    the gender. *)
Definition getPrompts (gender : Gender) : list PromptItem :=
  match gender with
  | female => basePrompts ++ femalePrompts
  | male => basePrompts ++ malePrompts
  end.

Definition pendingCell (promptId : jsstring) : GeneratedImage :=
  {| g_id := promptId; status := pending; url := None; g_error := None |}.

(** The items whose requests are in flight. *)
Definition inFlight (st : Pool) : list PromptItem :=
  omap (fun w => match w with Awaiting p => Some p | Finished => None end)
       (workers st).

Section Regenerate.

Variable operation : jsstring -> list jsstring -> Result jsstring.

(** [resizeImageToAspectRatio] of [lib/utils], whose promise may reject. *)
Variable resizeImageToAspectRatio : jsstring -> jsstring -> Result jsstring.

(** [handleRegenerate(promptId)], as the state of [generatedImages] once
    its promise has settled.  When the resize rejects, so does the handler,
    after the cell was set to pending. *)
Definition handleRegenerate (uploadedImage : option jsstring) (gender : Gender)
  (promptId : jsstring) (prev : gmap jsstring GeneratedImage)
  : gmap jsstring GeneratedImage :=
  match uploadedImage with
  | None | Some [] => prev
  | Some (c :: s) =>
      let promptsToUse := getPrompts gender in
      match List.find (fun p => js_eqb (p_id p) promptId) promptsToUse with
      | None => prev
      | Some promptItem =>
          let marked := <[promptId := pendingCell promptId]> prev in
          match resizeImageToAspectRatio (c :: s) (js "9:16") with
          | Throw _ => marked
          | Ok resizedImage =>
              processSinglePrompt operation promptItem resizedImage marked
          end
      end
  end.

End Regenerate.

(** ** PoseAnimator *)

Definition posePrompt : jsstring :=
  lines [
    js "Your task is to transfer the pose from the second image (the reference pose) onto the person in the first image (the character).";
    js "";
    js "**CRITICAL INSTRUCTIONS:**";
    js "1.  Identify the person in the first image. This is your target character.";
    js "2.  Analyze the pose in the second image. This could be a photo, sketch, or line art.";
    js "3.  Recreate the character from the first image in the exact pose shown in the second image.";
    js "4.  **Preserve Identity:** The person in the final output MUST be recognizably the same person from the first image.";
    js "5.  **Maintain Style:** The clothing, background, lighting, and overall artistic style of the first image must be precisely maintained in the final output. The only change should be the person's pose."
  ].


Module PoseAnimator.

Inductive View := config | result.
Inductive PoseSourceTab := upload | draw.

Record State := mkState {
  view : View;
  characterImage : option jsstring;
  poseImage : option jsstring;
  drawnPose : option jsstring;
  generatedImage : option jsstring;
  isLoading : bool;
  error : option jsstring;
  poseSourceTab : PoseSourceTab;
  refinePrompt : jsstring
}.

(** [poseSourceTab === 'draw' ? drawnPose : poseImage] *)
Definition finalPoseImage (st : State) : option jsstring :=
  match poseSourceTab st with
  | draw => drawnPose st
  | upload => poseImage st
  end.

(** The state the four setters before the [try] lead to. *)
Definition started (st : State) : State :=
  {| view := result;
     characterImage := characterImage st;
     poseImage := poseImage st;
     drawnPose := drawnPose st;
     generatedImage := None;
     isLoading := true;
     error := None;
     poseSourceTab := poseSourceTab st;
     refinePrompt := refinePrompt st |}.

(** The state after [try], [catch] and [finally]. *)
Definition settled (st : State) (outcome : Result jsstring) : State :=
  {| view := view st;
     characterImage := characterImage st;
     poseImage := poseImage st;
     drawnPose := drawnPose st;
     generatedImage :=
       match outcome with
       | Ok resultUrl => Some resultUrl
       | Throw _ => generatedImage st
       end;
     isLoading := false;
     error :=
       match outcome with
       | Ok _ => error st
       | Throw (JsError message) => Some message
       | Throw (JsNonError _) => Some (js "An unknown error occurred.")
       end;
     poseSourceTab := poseSourceTab st;
     refinePrompt := refinePrompt st |}.

(** [handleAnimate(instructions)], run to the end of its promise. *)
Definition handleAnimate (endpoint : Endpoint) (instructions : option jsstring)
  (st : State) (w : World) : State * World :=
  match characterImage st, finalPoseImage st with
  | Some (c :: cs), Some (p :: ps) =>
      let '(outcome, w') :=
        generateStyledImage endpoint posePrompt [c :: cs; p :: ps] instructions w in
      (settled (started st) outcome, w')
  | _, _ => (st, w)
  end.

(** [!characterImage || !(poseImage || drawnPose) || isLoading] *)
Definition isAnimateDisabled (st : State) : bool :=
  negb (truthy (characterImage st))
  || negb (truthy (orValue (poseImage st) (drawnPose st)))
  || isLoading st.

End PoseAnimator.

(** ** TimeMachine *)

Module TimeMachine.

Inductive Era :=
| ancient_rome | medieval_europe | feudal_japan | victorian_era | roaring_20s
| the_1970s | the_1980s | cyberpunk_future | solarpunk_future.

(** The string each member of the [Era] union is. *)
Definition eraId (era : Era) : jsstring :=
  match era with
  | ancient_rome => js "ancient-rome"
  | medieval_europe => js "medieval-europe"
  | feudal_japan => js "feudal-japan"
  | victorian_era => js "victorian-era"
  | roaring_20s => js "roaring-20s"
  | the_1970s => js "1970s"
  | the_1980s => js "1980s"
  | cyberpunk_future => js "cyberpunk-future"
  | solarpunk_future => js "solarpunk-future"
  end.

Definition genderText (gender : Gender) : jsstring :=
  match gender with
  | male => js "male"
  | female => js "female"
  end.

Inductive View := config | result.

Record State := mkState {
  view : View;
  uploadedImage : option jsstring;
  generatedImage : option jsstring;
  isLoading : bool;
  error : option jsstring;
  era : Era;
  gender : Gender;
  hair : jsstring;
  clothing : jsstring;
  facial : jsstring;
  background : jsstring;
  customHair : jsstring;
  customClothing : jsstring;
  customFacial : jsstring;
  customBackground : jsstring;
  refinePrompt : jsstring
}.

(** [if (value) prompt += sentence]: the empty string is falsy. *)
Definition addIf (value : jsstring) (sentence : jsstring) (prompt : jsstring)
  : jsstring :=
  match value with
  | [] => prompt
  | _ :: _ => prompt ++ sentence
  end.

(** The setters of the option state. *)
Definition setHair (value : jsstring) (st : State) : State :=
  {| view := view st;
     uploadedImage := uploadedImage st;
     generatedImage := generatedImage st;
     isLoading := isLoading st;
     error := error st;
     era := era st;
     gender := gender st;
     hair := value;
     clothing := clothing st;
     facial := facial st;
     background := background st;
     customHair := customHair st;
     customClothing := customClothing st;
     customFacial := customFacial st;
     customBackground := customBackground st;
     refinePrompt := refinePrompt st |}.

Definition setClothing (value : jsstring) (st : State) : State :=
  {| view := view st;
     uploadedImage := uploadedImage st;
     generatedImage := generatedImage st;
     isLoading := isLoading st;
     error := error st;
     era := era st;
     gender := gender st;
     hair := hair st;
     clothing := value;
     facial := facial st;
     background := background st;
     customHair := customHair st;
     customClothing := customClothing st;
     customFacial := customFacial st;
     customBackground := customBackground st;
     refinePrompt := refinePrompt st |}.

Definition setFacial (value : jsstring) (st : State) : State :=
  {| view := view st;
     uploadedImage := uploadedImage st;
     generatedImage := generatedImage st;
     isLoading := isLoading st;
     error := error st;
     era := era st;
     gender := gender st;
     hair := hair st;
     clothing := clothing st;
     facial := value;
     background := background st;
     customHair := customHair st;
     customClothing := customClothing st;
     customFacial := customFacial st;
     customBackground := customBackground st;
     refinePrompt := refinePrompt st |}.

Definition setBackground (value : jsstring) (st : State) : State :=
  {| view := view st;
     uploadedImage := uploadedImage st;
     generatedImage := generatedImage st;
     isLoading := isLoading st;
     error := error st;
     era := era st;
     gender := gender st;
     hair := hair st;
     clothing := clothing st;
     facial := facial st;
     background := value;
     customHair := customHair st;
     customClothing := customClothing st;
     customFacial := customFacial st;
     customBackground := customBackground st;
     refinePrompt := refinePrompt st |}.

Definition setCustomFacial (value : jsstring) (st : State) : State :=
  {| view := view st;
     uploadedImage := uploadedImage st;
     generatedImage := generatedImage st;
     isLoading := isLoading st;
     error := error st;
     era := era st;
     gender := gender st;
     hair := hair st;
     clothing := clothing st;
     facial := facial st;
     background := background st;
     customHair := customHair st;
     customClothing := customClothing st;
     customFacial := value;
     customBackground := customBackground st;
     refinePrompt := refinePrompt st |}.

Section WithTranslations.

(** [t], the lookup of the language context. *)
Variable t : jsstring -> jsstring.

(** The prompt [handleGenerate] builds from the options. *)
Definition buildPrompt (st : State) : jsstring :=
  let finalHair := orString (customHair st) (hair st) in
  let finalClothing := orString (customClothing st) (clothing st) in
  let finalFacial := orString (customFacial st) (facial st) in
  let finalBackground := orString (customBackground st) (background st) in
  let prompt :=
    js "Transform the person in the image into a classic "
    ++ genderText (gender st) ++ js " from the "
    ++ t (js "timeMachine.presets." ++ eraId (era st)) ++ js " era." ++ nl in
  let prompt :=
    addIf finalClothing
      (js "They should be wearing " ++ finalClothing ++ js "." ++ nl) prompt in
  let prompt :=
    addIf finalHair (js "Give them " ++ finalHair ++ js " hair." ++ nl) prompt in
  let prompt :=
    match gender st with
    | male => addIf finalFacial (js "Add " ++ finalFacial ++ js "." ++ nl) prompt
    | female => prompt
    end in
  let prompt :=
    addIf finalBackground
      (js "Change the background to an iconic " ++ finalBackground
       ++ js " setting." ++ nl) prompt in
  prompt
  ++ js "It is crucial to maintain the original person's facial features and identity.".

(** [instructions || refinePrompt] *)
Definition refinement (instructions : option jsstring) (st : State)
  : option jsstring :=
  if truthy instructions then instructions else Some (refinePrompt st).

(** The state after [try], [catch] and [finally]; [generatedImage] is not
    cleared before the request. *)
Definition settled (st : State) (outcome : Result jsstring) : State :=
  {| view := result;
     uploadedImage := uploadedImage st;
     generatedImage :=
       match outcome with
       | Ok resultUrl => Some resultUrl
       | Throw _ => generatedImage st
       end;
     isLoading := false;
     error :=
       match outcome with
       | Ok _ => None
       | Throw (JsError message) => Some message
       | Throw (JsNonError _) => Some (js "An unknown error occurred.")
       end;
     era := era st; gender := gender st;
     hair := hair st; clothing := clothing st; facial := facial st;
     background := background st;
     customHair := customHair st; customClothing := customClothing st;
     customFacial := customFacial st; customBackground := customBackground st;
     refinePrompt := refinePrompt st |}.

(** [handleGenerate(instructions)], run to the end of its promise. *)
Definition handleGenerate (endpoint : Endpoint) (instructions : option jsstring)
  (st : State) (w : World) : State * World :=
  match uploadedImage st with
  | Some (c :: s) =>
      let '(outcome, w') :=
        generateStyledImage endpoint (buildPrompt st) [c :: s]
          (refinement instructions st) w in
      (settled st outcome, w')
  | Some [] | None => (st, w)
  end.

End WithTranslations.

End TimeMachine.

(** ** Footer *)

Module Footer.

Definition REMIX_IDEAS : list jsstring :=
  [ js "to expand a single photo into a full album.";
    js "to create a modeling portfolio.";
    js "to get more pose variations from one picture.";
    js "to generate new social media profile pictures.";
    js "to create a character sheet for a story.";
    js "to explore different angles of a great shot." ].

(** The updater of the interval: [prevIndex => (prevIndex + 1) % REMIX_IDEAS.length] *)
Definition tick (prevIndex : nat) : nat :=
  ((prevIndex + 1) mod length REMIX_IDEAS)%nat.

End Footer.

(** ** Further sample collaborators *)

(** An endpoint that fails twice with an internal error and serves the
    third request. *)
Definition flakyEndpoint : Endpoint :=
  fun n _ =>
    if (n <? 2)%nat then Throw (JsError (internalErrorMessage n))
    else Ok sampleResponse.

(** An endpoint that always answers in prose. *)
Definition proseEndpoint : Endpoint := fun _ _ => Ok proseResponse.

(** A browser that loads [pngUrl] as a 640 by 480 image and nothing else,
    and whose canvas serialises to a PNG data URL. *)
Definition sampleBrowser : Browser Z :=
  {| loadImage := fun u => if js_eqb u pngUrl then Some (640, 480) else None;
     getContext2d := fun _ _ => true;
     toDataURL := fun _ _ _ _ _ => js "data:image/png;base64,TUFSS0VE" |}.

(** A browser in which every image loads with no width and no height, so
    that the canvas serialises to [data:,]. *)
Definition emptyCanvasBrowser : Browser Z :=
  {| loadImage := fun _ => Some (0, 0);
     getContext2d := fun _ _ => true;
     toDataURL := fun _ _ _ _ _ => js "data:," |}.

(** What holds of the cells between two turns of the event loop while a
    batch over [promptsToUse] runs: the items waiting, in flight or queued,
    are distinct items of the batch, their cells say pending, and the cells
    of all other items of the batch hold the outcome of their own
    operation. *)
Definition cellsInv (operation : jsstring -> list jsstring -> Result jsstring)
  (resizedImage : jsstring) (promptsToUse : list PromptItem) (st : Pool) : Prop :=
  NoDup (inFlight st ++ queue st) /\
  (forall p, p ∈ inFlight st ++ queue st -> p ∈ promptsToUse) /\
  forall p, p ∈ promptsToUse ->
    ((p ∈ inFlight st ++ queue st) /\
     generatedImages st !! p_id p = Some (pendingCell (p_id p))) \/
    ((p ∉ inFlight st ++ queue st) /\
     generatedImages st !! p_id p
     = Some (settledCell operation resizedImage p)).

(** A pose animator with a character, an uploaded pose and a drawn pose. *)
Definition samplePoseState : PoseAnimator.State :=
  {| PoseAnimator.view := PoseAnimator.config;
     PoseAnimator.characterImage := Some pngUrl;
     PoseAnimator.poseImage := Some jpegUrl;
     PoseAnimator.drawnPose := None;
     PoseAnimator.generatedImage := None;
     PoseAnimator.isLoading := false;
     PoseAnimator.error := None;
     PoseAnimator.poseSourceTab := PoseAnimator.upload;
     PoseAnimator.refinePrompt := [] |}.

(** The same with the draw tab selected and nothing drawn. *)
Definition drawTabPoseState : PoseAnimator.State :=
  {| PoseAnimator.view := PoseAnimator.config;
     PoseAnimator.characterImage := Some pngUrl;
     PoseAnimator.poseImage := Some jpegUrl;
     PoseAnimator.drawnPose := None;
     PoseAnimator.generatedImage := None;
     PoseAnimator.isLoading := false;
     PoseAnimator.error := None;
     PoseAnimator.poseSourceTab := PoseAnimator.draw;
     PoseAnimator.refinePrompt := [] |}.

(** A time machine set to the 1920s for a woman, with a custom hair style
    typed over the preset, and a portrait from an earlier run. *)
Definition sampleEraState : TimeMachine.State :=
  {| TimeMachine.view := TimeMachine.config;
     TimeMachine.uploadedImage := Some pngUrl;
     TimeMachine.generatedImage := Some jpegUrl;
     TimeMachine.isLoading := false;
     TimeMachine.error := None;
     TimeMachine.era := TimeMachine.roaring_20s;
     TimeMachine.gender := female;
     TimeMachine.hair := js "Flapper Bob";
     TimeMachine.clothing := js "Flapper Dress";
     TimeMachine.facial := js "Pencil Mustache";
     TimeMachine.background := [];
     TimeMachine.customHair := js "a beehive";
     TimeMachine.customClothing := [];
     TimeMachine.customFacial := [];
     TimeMachine.customBackground := [];
     TimeMachine.refinePrompt := [] |}.

(** A translation table that answers every key with the key itself. *)
Definition keyAsLabel : jsstring -> jsstring := fun key => key.

(** The message of the [TypeError] for a method read off [undefined], as
    V8 words it, and an endpoint whose promise is rejected with
    [undefined]. *)
Definition undefinedTypeError : jsstring :=
  js "Cannot read properties of undefined (reading 'includes')".

Definition undefinedRejectionEndpoint : Endpoint :=
  fun _ _ => Throw (JsNonError (JsonUndefined undefinedTypeError)).

(** The message of the [TypeError] of [JSON.stringify] on an object that
    refers to itself, and an endpoint whose promise is rejected with such
    an object. *)
Definition cyclicTypeError : jsstring :=
  js "Converting circular structure to JSON".

Definition cyclicRejectionEndpoint : Endpoint :=
  fun _ _ => Throw (JsNonError (JsonThrows cyclicTypeError)).

(** * Properties *)

(** ** Strings *)

Lemma startsWith_spec (s p : jsstring) :
  startsWith s p = true <-> exists r, s = p ++ r.
Proof.
  revert s. induction p as [|a p IH]; intros s; simpl.
  - split; [intros _; by exists s | done].
  - destruct s as [|b s]; simpl.
    + split; [done | intros [r Hr]; discriminate].
    + rewrite andb_true_iff, N.eqb_eq, IH. split.
      * intros [-> [r ->]]. by exists r.
      * intros [r Hr]. injection Hr as -> ->. eauto.
Qed.

Lemma includes_spec (s sub : jsstring) :
  includes s sub = true <-> Contains s sub.
Proof.
  unfold Contains. induction s as [|c s IH].
  - simpl. rewrite orb_false_r, startsWith_spec. split.
    + intros [r Hr]. by exists [], r.
    + intros [before [after H]].
      destruct before; [|discriminate]. simpl in H. eauto.
  - cbn [includes]. rewrite orb_true_iff, startsWith_spec, IH. split.
    + intros [[r Hr] | [before [after H]]].
      * by exists [], r.
      * exists (c :: before), after. by rewrite H.
    + intros [[|b before] [after H]].
      * left. by exists after.
      * right. injection H as -> ->. eauto.
Qed.

Lemma strip_prefix_spec (p s r : jsstring) :
  strip_prefix p s = Some r <-> s = p ++ r.
Proof.
  revert s. induction p as [|a p IH]; intros s; simpl.
  - split; [by intros [= ->] | by intros ->].
  - destruct s as [|b s]; [done|].
    destruct (N.eqb_spec a b) as [->|Hne].
    + rewrite IH. split; [by intros -> | by intros [= ->]].
    + split; [done | intros [= -> _]; done].
Qed.

Lemma strip_prefix_app (p r : jsstring) : strip_prefix p (p ++ r) = Some r.
Proof. by apply strip_prefix_spec. Qed.

Lemma span_spec (f : N -> bool) (s run tl : jsstring) :
  span f s = (run, tl) ->
  s = run ++ tl /\ forallb f run = true /\
  match tl with [] => True | c :: _ => f c = false end.
Proof.
  revert run. induction s as [|c s IH]; intros run; simpl.
  - by intros [= <- <-].
  - destruct (f c) eqn:Hc.
    + destruct (span f s) as [run' tl'] eqn:Hs. intros [= <- <-].
      destruct (IH run' eq_refl) as (-> & Hrun & Htl). simpl. by rewrite Hc.
    + intros [= <- <-]. simpl. by rewrite Hc.
Qed.

Lemma span_app (f : N -> bool) (run tl : jsstring) :
  forallb f run = true ->
  match tl with [] => True | c :: _ => f c = false end ->
  span f (run ++ tl) = (run, tl).
Proof.
  intros Hrun Htl. induction run as [|c run IH]; simpl in *.
  - destruct tl as [|c tl]; simpl; [done | by rewrite Htl].
  - apply andb_true_iff in Hrun as [-> Hrun]. by rewrite IH.
Qed.

Lemma forallb_Forall_true {A} (f : A -> bool) (l : list A) :
  forallb f l = true <-> Forall (fun x => f x = true) l.
Proof.
  induction l as [|x l IH]; simpl.
  - split; [constructor | done].
  - rewrite andb_true_iff, IH. split.
    + intros [? ?]. by constructor.
    + by inversion 1.
Qed.

Lemma forallb_not_line_terminator (p : jsstring) :
  forallb (fun c => negb (is_line_terminator c)) p = true
  <-> Forall (fun c => is_line_terminator c = false) p.
Proof.
  rewrite forallb_Forall_true. apply Forall_iff. intros c.
  by destruct (is_line_terminator c).
Qed.

(** ** The pattern match of the operations is the declarative pattern *)

Lemma matchDataUrl_spec (u m p : jsstring) :
  matchDataUrl u = Some (m, p) <-> DataUrlPattern u m p.
Proof.
  unfold matchDataUrl, DataUrlPattern. split.
  - destruct (strip_prefix (js "data:") u) as [rest0|] eqn:H0; [|done].
    cbn [mbind option_bind].
    destruct (strip_prefix (js "image/") rest0) as [rest1|] eqn:H1; [|done].
    cbn [mbind option_bind].
    destruct (span is_word_char rest1) as [subtype rest2] eqn:Hspan.
    destruct subtype as [|c subtype]; [done|].
    destruct (strip_prefix (js ";base64,") rest2) as [payload|] eqn:H2; [|done].
    cbn [mbind option_bind].
    destruct (forallb _ payload) eqn:Hp; [|done].
    intros [= <- <-].
    apply strip_prefix_spec in H0, H1, H2.
    apply span_spec in Hspan as (Hrest1 & Hrun & _).
    exists (c :: subtype). split; [done|]. split; [by apply forallb_Forall_true|].
    split; [done|]. split; [by apply forallb_not_line_terminator|].
    subst. reflexivity.
  - intros (subtype & Hne & Hw & -> & Hp & ->).
    rewrite strip_prefix_app. cbn [mbind option_bind].
    rewrite <- !app_assoc, strip_prefix_app. cbn [mbind option_bind].
    rewrite span_app; [| by apply forallb_Forall_true | done].
    destruct subtype as [|c subtype]; [done|].
    rewrite strip_prefix_app. cbn [mbind option_bind].
    apply forallb_not_line_terminator in Hp. by rewrite Hp.
Qed.

Lemma matchDataUrl_None (u : jsstring) :
  matchDataUrl u = None <-> forall m p, ~ DataUrlPattern u m p.
Proof.
  split.
  - intros Hnone m p Hpat. apply matchDataUrl_spec in Hpat. congruence.
  - intros Hno. destruct (matchDataUrl u) as [[m p]|] eqn:Hu; [|done].
    apply matchDataUrl_spec in Hu. by destruct (Hno m p).
Qed.

Lemma base64_not_line_terminator (c : N) :
  is_base64_char c = true -> is_line_terminator c = false.
Proof.
  intros H. unfold is_line_terminator.
  repeat (apply orb_false_intro); apply N.eqb_neq; intros ->;
    vm_compute in H; discriminate.
Qed.

Lemma validMediaType_inv (m : jsstring) :
  validMediaType m = true ->
  exists subtype, subtype <> [] /\ m = js "image/" ++ subtype /\
                  Forall (fun c => is_word_char c = true) subtype.
Proof.
  unfold validMediaType.
  destruct (strip_prefix (js "image/") m) as [[|c w]|] eqn:Hm; try done.
  intros Hw. apply strip_prefix_spec in Hm.
  exists (c :: w). split; [done|]. split; [done|]. by apply forallb_Forall_true.
Qed.

(** ** C3: the codec round trip *)

(** C3. For every valid media type [m] (an [image/] type with a subtype of
    word characters, such as png, jpeg or webp) and every valid base64
    payload [b], decoding the encoded form [data:m;base64,b] gives back
    exactly [m] and [b]. *)
Theorem codec_round_trip (m b : jsstring) :
  validMediaType m = true ->
  validPayload b = true ->
  decode (encode m b) = Some (m, b).
Proof.
  intros Hm Hb. apply matchDataUrl_spec.
  destruct (validMediaType_inv m Hm) as (subtype & Hne & -> & Hw).
  exists subtype. repeat split; try done.
  apply forallb_Forall_true in Hb.
  eapply Forall_impl; [exact Hb|]. apply base64_not_line_terminator.
Qed.

Lemma codec_round_trip_witness :
  decode (encode (js "image/png") (js "iVBORw0KGgo=")) =
  Some (js "image/png", js "iVBORw0KGgo=").
Proof. apply codec_round_trip; reflexivity. Defined.

(** ** C4: malformed inputs are rejected before the network *)

Lemma map_result_decode_rejects (urls : list jsstring) (u : jsstring) :
  u ∈ urls -> matchDataUrl u = None ->
  map_result decodeImagePart urls = Throw (JsError invalidFormatMessage).
Proof.
  intros Hin Hu. induction urls as [|v urls IH]; [by inversion Hin|].
  simpl. unfold decodeImagePart at 1.
  destruct (matchDataUrl v) as [[m p]|] eqn:Hv; [|done].
  apply elem_of_cons in Hin as [->|Hin]; [congruence|].
  by rewrite (IH Hin).
Qed.

(** C4. An input that is not of the shape [data:<mediaType>;base64,<payload>]
    with an image media type makes the operation fail with the format error
    and leaves the world untouched: no request was sent.  In particular
    [not-a-data-url] and [data:text/plain;base64,abc] are not decoded. *)
Theorem format_rejection_before_network :
  decode (js "not-a-data-url") = None /\
  decode (js "data:text/plain;base64,abc") = None /\
  forall (endpoint : Endpoint) (prompt : jsstring) (imageDataUrls : list jsstring)
         (additionalInstructions : option jsstring) (w : World) (u : jsstring),
    u ∈ imageDataUrls ->
    (forall m p, ~ DataUrlPattern u m p) ->
    generateStyledImage endpoint prompt imageDataUrls additionalInstructions w
    = (Throw (JsError invalidFormatMessage), w).
Proof.
  split; [reflexivity|]. split; [reflexivity|].
  intros endpoint prompt urls add w u Hin Hpat.
  apply matchDataUrl_None in Hpat. unfold generateStyledImage.
  destruct urls as [|v urls]; [by inversion Hin|]. cbn [length Nat.eqb].
  unfold bind, lift. by rewrite (map_result_decode_rejects _ u Hin Hpat).
Qed.

Lemma format_rejection_before_network_witness :
  generateStyledImage imageEndpoint (js "Make it a watercolor.")
    [pngUrl; js "data:text/plain;base64,abc"] None []
  = (Throw (JsError invalidFormatMessage), []).
Proof.
  apply (proj2 (proj2 format_rejection_before_network)
           imageEndpoint (js "Make it a watercolor.")
           [pngUrl; js "data:text/plain;base64,abc"] None []
           (js "data:text/plain;base64,abc")).
  - apply list_elem_of_In. simpl. right. left. reflexivity.
  - apply matchDataUrl_None. reflexivity.
Defined.

(** ** C1, C2: the retrying transport *)

Lemma call_count_app (w1 w2 : World) :
  call_count (w1 ++ w2) = (call_count w1 + call_count w2)%nat.
Proof. unfold call_count. by rewrite List.filter_app, length_app. Qed.

Lemma delays_app (w1 w2 : World) : delays (w1 ++ w2) = delays w1 ++ delays w2.
Proof. unfold delays. apply omap_app. Qed.

Lemma call_count_after_call (w : World) (sent : list Part) :
  call_count (w ++ [EvCall sent]) = S (call_count w).
Proof. rewrite call_count_app. change (call_count [_]) with 1%nat. lia. Qed.

Lemma call_count_after_retry (w : World) (sent : list Part) (ms : Z) :
  call_count (w ++ [EvCall sent; EvSleep ms]) = S (call_count w).
Proof. rewrite call_count_app. change (call_count [_; _]) with 1%nat. lia. Qed.

(** One turn of the loop. *)
Lemma attemptsFrom_cons (endpoint : Endpoint) (attempt : Z) (later : list Z)
  (sent : list Part) (w : World) :
  attemptsFrom endpoint (attempt :: later) sent w =
  match endpoint (call_count w) sent with
  | Ok response => (Ok response, w ++ [EvCall sent])
  | Throw e =>
      if isInternalError e && (attempt <? maxRetries)
      then attemptsFrom endpoint later sent
             (w ++ [EvCall sent; EvSleep (initialDelay * 2 ^ (attempt - 1))])
      else (received (Throw e), w ++ [EvCall sent])
  end.
Proof.
  cbn [attemptsFrom]. unfold try_catch, generateContent.
  destruct (endpoint (call_count w) sent) as [response|e]; [done|].
  unfold isInternalError.
  destruct e as [message|[json|typeError|typeError]];
    cbn [errorMessageOf received andb]; try done;
    (destruct (hasInternalMarker _ && (attempt <? maxRetries)); [|done]);
    unfold bind, sleep; by rewrite <- app_assoc.
Qed.

(** A failure that is retried is one that has a detail; when the attempts
    run out it is handed on as it is. *)
Lemma received_internal (e : Thrown) :
  isInternalError e = true -> received (Throw e) = Throw e.
Proof. by destruct e as [message|[json|typeError|typeError]]. Qed.

(** What the transport hands on always has a detail. *)
Lemma received_detail (answer : Result GenerateContentResponse) (e : Thrown) :
  received answer = Throw e ->
  exists errorMessage, errorMessageOf e = JsonText errorMessage.
Proof.
  destruct answer as [response|[message|[json|typeError|typeError]]];
    cbn [received]; intros [= <-]; by eexists.
Qed.

(** The two markers, as substring occurrence. *)
Lemma hasInternalMarker_spec (errorMessage : jsstring) :
  hasInternalMarker errorMessage = true <->
  Contains errorMessage code500Marker \/ Contains errorMessage (js "INTERNAL").
Proof. unfold hasInternalMarker. by rewrite orb_true_iff, !includes_spec. Qed.

(** A run only ever appends to the log. *)
Lemma attemptsFrom_extends (endpoint : Endpoint) (todo : list Z)
  (sent : list Part) (w : World) :
  exists r evs, attemptsFrom endpoint todo sent w = (r, w ++ evs).
Proof.
  revert w. induction todo as [|attempt later IH]; intros w.
  - eexists _, []. cbn. by rewrite app_nil_r.
  - rewrite attemptsFrom_cons.
    destruct (endpoint (call_count w) sent) as [response|e]; [by eexists _, _|].
    destruct (isInternalError e && (attempt <? maxRetries)); [|by eexists _, _].
    destruct (IH (w ++ [EvCall sent; EvSleep (initialDelay * 2 ^ (attempt - 1))]))
      as (r & evs & ->).
    eexists r, _. by rewrite <- app_assoc.
Qed.

(** Every attempt starts with a request. *)
Lemma attemptsFrom_first_call (endpoint : Endpoint) (attempt : Z)
  (later : list Z) (sent : list Part) (w : World) :
  exists r rest,
    attemptsFrom endpoint (attempt :: later) sent w = (r, w ++ [EvCall sent] ++ rest).
Proof.
  rewrite attemptsFrom_cons.
  destruct (endpoint (call_count w) sent) as [response|e]; [by eexists _, []|].
  destruct (isInternalError e && (attempt <? maxRetries)); [|by eexists _, []].
  destruct (attemptsFrom_extends endpoint later sent
              (w ++ [EvCall sent; EvSleep (initialDelay * 2 ^ (attempt - 1))]))
    as (r & evs & ->).
  exists r, (EvSleep (initialDelay * 2 ^ (attempt - 1)) :: evs).
  by rewrite <- app_assoc.
Qed.

Lemma callImageModelWithRetry_attempts (endpoint : Endpoint) (sent : list Part) :
  callImageModelWithRetry endpoint sent = attemptsFrom endpoint [1; 2; 3] sent.
Proof. reflexivity. Qed.

(** Gives the events a run appended and checks the counts on them. *)
Ltac trace_of evs :=
  exists evs; split;
  [ cbn [snd]; rewrite <- ?app_assoc; reflexivity
  | split; [vm_compute; lia | vm_compute; reflexivity] ].

(** C1. Whatever the endpoint does, one transport call invokes it at least
    once and at most 3 times, and the waits between the attempts are the
    first of 1000ms = 1000 * 2^0 and 2000ms = 1000 * 2^1.  When the three
    attempts all fail with a transient-server signature, the endpoint is
    invoked exactly 3 times, with a wait of 1000ms before the second and of
    2000ms before the third attempt, and the failure of the third attempt
    is what the caller receives. *)
Theorem retry_bound (endpoint : Endpoint) (sent : list Part) (w : World) :
  (exists evs,
      snd (callImageModelWithRetry endpoint sent w) = w ++ evs /\
      (1 <= call_count evs <= 3)%nat /\
      delays evs = take (call_count evs - 1)
                     [initialDelay * 2 ^ 0; initialDelay * 2 ^ 1]) /\
  forall e1 e2 e3 : Thrown,
    endpoint (call_count w) sent = Throw e1 -> isInternalError e1 = true ->
    endpoint (S (call_count w)) sent = Throw e2 -> isInternalError e2 = true ->
    endpoint (S (S (call_count w))) sent = Throw e3 -> isInternalError e3 = true ->
    callImageModelWithRetry endpoint sent w =
    (Throw e3,
     w ++ [EvCall sent; EvSleep 1000; EvCall sent; EvSleep 2000; EvCall sent]).
Proof.
  rewrite callImageModelWithRetry_attempts. split.
  - rewrite attemptsFrom_cons.
    destruct (endpoint (call_count w) sent) as [r1|e1];
      [by trace_of [EvCall sent]|].
    destruct (isInternalError e1); cbn [andb]; [|by trace_of [EvCall sent]].
    change (1 <? maxRetries) with true. cbn [andb].
    rewrite attemptsFrom_cons, call_count_after_retry.
    change (initialDelay * 2 ^ (1 - 1)) with 1000.
    destruct (endpoint (S (call_count w)) sent) as [r2|e2];
      [by trace_of [EvCall sent; EvSleep 1000; EvCall sent]|].
    destruct (isInternalError e2); cbn [andb];
      [|by trace_of [EvCall sent; EvSleep 1000; EvCall sent]].
    change (2 <? maxRetries) with true. cbn [andb].
    rewrite attemptsFrom_cons.
    change (initialDelay * 2 ^ (2 - 1)) with 2000.
    change (3 <? maxRetries) with false.
    destruct (endpoint _ sent); [|rewrite andb_false_r];
      by trace_of [EvCall sent; EvSleep 1000; EvCall sent; EvSleep 2000; EvCall sent].
  - intros e1 e2 e3 H1 T1 H2 T2 H3 T3.
    rewrite attemptsFrom_cons, H1, T1.
    change (true && (1 <? maxRetries)) with true. cbv iota.
    rewrite attemptsFrom_cons, call_count_after_retry, H2, T2.
    change (true && (2 <? maxRetries)) with true. cbv iota.
    rewrite attemptsFrom_cons, <- app_assoc, call_count_app.
    match goal with
    | |- context [endpoint ?n sent] =>
        replace n with (S (S (call_count w))) by (vm_compute call_count; lia)
    end.
    rewrite H3, T3.
    change (true && (3 <? maxRetries)) with false. cbv iota.
    by rewrite (received_internal _ T3), <- !app_assoc.
Qed.

Lemma retry_bound_witness :
  callImageModelWithRetry internalErrorEndpoint [textPartOf (js "hi")] [] =
  (Throw (JsError (internalErrorMessage 2)),
   [EvCall [textPartOf (js "hi")]; EvSleep 1000;
    EvCall [textPartOf (js "hi")]; EvSleep 2000;
    EvCall [textPartOf (js "hi")]]).
Proof.
  apply (proj2 (retry_bound internalErrorEndpoint [textPartOf (js "hi")] [])
           (JsError (internalErrorMessage 0))
           (JsError (internalErrorMessage 1))
           (JsError (internalErrorMessage 2))); reflexivity.
Defined.

(** C2. For a failure that has a detail (the message of an [Error], or the
    JSON text of any other thrown value), the failure counts as transient
    exactly when the detail contains the marker [code:500] (with the key in
    double quotes) or the substring [INTERNAL].  When an attempt fails with
    a detail that has neither, the endpoint has been invoked once, that
    failure is what the caller receives and no wait took place, at the
    first attempt and at whichever attempt it occurs; when the first
    attempt fails with a detail that has one of them, the transport waits
    1000ms and tries again.  For a thrown value that [JSON.stringify] cannot
    turn into text (it gives [undefined], or throws), the endpoint is also
    invoked once and no wait takes place, but the caller does not receive
    that failure: it receives the [TypeError] raised inside the [catch]
    block. *)
Theorem transient_classification (endpoint : Endpoint) (sent : list Part)
  (w : World) :
  (forall (e : Thrown) (detail : jsstring),
     e = JsError detail \/ e = JsNonError (JsonText detail) ->
     (isInternalError e = true <->
      Contains detail code500Marker \/ Contains detail (js "INTERNAL")) /\
     (endpoint (call_count w) sent = Throw e ->
      ~ (Contains detail code500Marker \/ Contains detail (js "INTERNAL")) ->
      callImageModelWithRetry endpoint sent w = (Throw e, w ++ [EvCall sent])) /\
     (endpoint (call_count w) sent = Throw e ->
      Contains detail code500Marker \/ Contains detail (js "INTERNAL") ->
      exists r rest,
        callImageModelWithRetry endpoint sent w =
        (r, w ++ [EvCall sent; EvSleep 1000; EvCall sent] ++ rest)) /\
     (forall attempt later,
        endpoint (call_count w) sent = Throw e ->
        ~ (Contains detail code500Marker \/ Contains detail (js "INTERNAL")) ->
        attemptsFrom endpoint (attempt :: later) sent w
        = (Throw e, w ++ [EvCall sent]))) /\
  (forall (stringified : Stringified) (typeError : jsstring) attempt later,
     stringified = JsonUndefined typeError \/ stringified = JsonThrows typeError ->
     endpoint (call_count w) sent = Throw (JsNonError stringified) ->
     attemptsFrom endpoint (attempt :: later) sent w
     = (Throw (JsError typeError), w ++ [EvCall sent])).
Proof.
  split.
  - intros e detail He.
    assert (Hflag : isInternalError e = hasInternalMarker detail)
      by (by destruct He as [-> | ->]).
    assert (Hkept : received (Throw e) = Throw e)
      by (by destruct He as [-> | ->]).
    assert (Hno : ~ (Contains detail code500Marker \/ Contains detail (js "INTERNAL")) ->
                  isInternalError e = false).
    { intros Hnot. rewrite Hflag. apply not_true_is_false.
      by rewrite hasInternalMarker_spec. }
    split; [|split; [|split]].
    + by rewrite Hflag, hasInternalMarker_spec.
    + intros Hthrown Hnot.
      by rewrite callImageModelWithRetry_attempts, attemptsFrom_cons, Hthrown,
        (Hno Hnot), Hkept.
    + intros Hthrown Hyes. apply hasInternalMarker_spec in Hyes.
      rewrite callImageModelWithRetry_attempts, attemptsFrom_cons, Hthrown,
        Hflag, Hyes.
      change (true && (1 <? maxRetries)) with true. cbv iota.
      change (initialDelay * 2 ^ (1 - 1)) with 1000.
      destruct (attemptsFrom_first_call endpoint 2 [3] sent
                  (w ++ [EvCall sent; EvSleep 1000])) as (r & rest & ->).
      exists r, rest. by rewrite <- app_assoc.
    + intros attempt later Hthrown Hnot.
      by rewrite attemptsFrom_cons, Hthrown, (Hno Hnot), Hkept.
  - intros stringified typeError attempt later Hs Hthrown.
    rewrite attemptsFrom_cons, Hthrown. by destruct Hs as [-> | ->].
Qed.

Lemma quota_message_has_no_signature :
  ~ (Contains (js "429 RESOURCE_EXHAUSTED: quota exceeded") code500Marker \/
     Contains (js "429 RESOURCE_EXHAUSTED: quota exceeded") (js "INTERNAL")).
Proof.
  rewrite <- hasInternalMarker_spec. by apply not_true_iff_false.
Qed.

Lemma transient_classification_witness :
  callImageModelWithRetry quotaEndpoint [textPartOf (js "hi")] [] =
  (Throw (JsError (js "429 RESOURCE_EXHAUSTED: quota exceeded")),
   [EvCall [textPartOf (js "hi")]]) /\
  callImageModelWithRetry undefinedRejectionEndpoint [textPartOf (js "hi")] [] =
  (Throw (JsError undefinedTypeError), [EvCall [textPartOf (js "hi")]]) /\
  callImageModelWithRetry cyclicRejectionEndpoint [textPartOf (js "hi")] [] =
  (Throw (JsError cyclicTypeError), [EvCall [textPartOf (js "hi")]]).
Proof.
  split; [|split].
  - apply (proj1 (proj2 (proj1 (transient_classification quotaEndpoint
                                  [textPartOf (js "hi")] [])
                           (JsError (js "429 RESOURCE_EXHAUSTED: quota exceeded"))
                           (js "429 RESOURCE_EXHAUSTED: quota exceeded")
                           (or_introl eq_refl))));
      [reflexivity | exact quota_message_has_no_signature].
  - apply (proj2 (transient_classification undefinedRejectionEndpoint
                    [textPartOf (js "hi")] [])
             (JsonUndefined undefinedTypeError) undefinedTypeError 1 [2; 3]
             (or_introl eq_refl)); reflexivity.
  - apply (proj2 (transient_classification cyclicRejectionEndpoint
                    [textPartOf (js "hi")] [])
             (JsonThrows cyclicTypeError) cyclicTypeError 1 [2; 3]
             (or_intror eq_refl)); reflexivity.
Defined.

(** ** C5, C6: the response resolver *)

Lemma find_first {A} (f : A -> bool) (before after : list A) (x : A) :
  Forall (fun y => f y = false) before -> f x = true ->
  List.find f (before ++ x :: after) = Some x.
Proof.
  intros Hbefore Hx. induction Hbefore as [|y before Hy _ IH]; simpl.
  - by rewrite Hx.
  - by rewrite Hy.
Qed.

Lemma find_split {A} (f : A -> bool) (l : list A) (x : A) :
  List.find f l = Some x ->
  exists before after,
    l = before ++ x :: after /\ Forall (fun y => f y = false) before /\ f x = true.
Proof.
  induction l as [|y l IH]; simpl; [done|].
  destruct (f y) eqn:Hy.
  - intros [= ->]. by exists [], l.
  - intros Hfind. destruct (IH Hfind) as (before & after & -> & Hb & Hx).
    exists (y :: before), after. split; [done|]. split; [by constructor | done].
Qed.

Lemma find_none_all {A} (f : A -> bool) (l : list A) :
  Forall (fun y => f y = false) l -> List.find f l = None.
Proof. induction 1 as [|y l Hy _ IH]; simpl; [done | by rewrite Hy]. Qed.

Lemma hasInlineData_false (p : Part) :
  hasInlineData p = false <-> inlineData p = None.
Proof. unfold hasInlineData. by destruct (inlineData p). Qed.

Lemma hasInlineData_true (p : Part) :
  hasInlineData p = true <-> exists b, inlineData p = Some b.
Proof.
  unfold hasInlineData. destruct (inlineData p) as [b|].
  - split; eauto.
  - split; [done | by intros [b Hb]].
Qed.

Lemma no_inline_Forall (ps : list Part) :
  Forall (fun p => inlineData p = None) ps <->
  Forall (fun p => hasInlineData p = false) ps.
Proof. apply Forall_iff. intros p. symmetry. apply hasInlineData_false. Qed.

(** C5. When the parts of the response's first candidate, read in order,
    hold a part with inline data, the resolver returns the data URL made of
    the media type and payload of the first such part, whatever the text
    parts and the later image parts are; and the resolver returns a value
    in no other case. *)
Theorem resolver_first_image (response : GenerateContentResponse) :
  (forall (before after : list Part) (part : Part) (b : Blob),
      firstCandidateParts response = Some (before ++ part :: after) ->
      Forall (fun p => inlineData p = None) before ->
      inlineData part = Some b ->
      processGeminiResponse response =
      Ok (js "data:" ++ interpolate (mimeType b) ++ js ";base64,"
          ++ interpolate (data b)) /\
      forall m d, mimeType b = Some m -> data b = Some d ->
                  processGeminiResponse response = Ok (encode m d)) /\
  (forall u : jsstring,
      processGeminiResponse response = Ok u ->
      exists (before after : list Part) (part : Part) (b : Blob),
        firstCandidateParts response = Some (before ++ part :: after) /\
        Forall (fun p => inlineData p = None) before /\
        inlineData part = Some b /\
        u = dataUrlOf b).
Proof.
  split.
  - intros before after part b Hparts Hbefore Hpart.
    assert (Hres : processGeminiResponse response = Ok (dataUrlOf b)).
    { unfold processGeminiResponse. rewrite Hparts. cbn [mbind option_bind].
      rewrite find_first;
        [| by apply no_inline_Forall | apply hasInlineData_true; eauto].
      cbn [mbind option_bind]. by rewrite Hpart. }
    split; [exact Hres|].
    intros m d Hm Hd. rewrite Hres. unfold dataUrlOf, encode.
    by rewrite Hm, Hd.
  - intros u. unfold processGeminiResponse.
    destruct (firstCandidateParts response) as [ps|]; cbn [mbind option_bind];
      [|done].
    destruct (List.find hasInlineData ps) as [part|] eqn:Hfind;
      cbn [mbind option_bind]; [|done].
    destruct (inlineData part) as [b|] eqn:Hb; [|done].
    intros [= <-].
    destruct (find_split _ _ _ Hfind) as (before & after & -> & Hbefore & _).
    exists before, after, part, b. split; [done|].
    split; [by apply no_inline_Forall | done].
Qed.

Lemma resolver_first_image_witness :
  processGeminiResponse sampleResponse = Ok (js "data:image/png;base64,QUJD").
Proof.
  apply (proj1 (resolver_first_image sampleResponse)
           [textPartOf (js "Here is your image.")]
           [ {| text := None;
                inlineData := Some {| mimeType := Some (js "image/jpeg");
                                      data := Some (js "REVG") |} |} ]
           {| text := None;
              inlineData := Some {| mimeType := Some (js "image/png");
                                    data := Some (js "QUJD") |} |}
           {| mimeType := Some (js "image/png"); data := Some (js "QUJD") |}).
  - reflexivity.
  - repeat constructor.
  - reflexivity.
Defined.

(** C6. When no part of the response's first candidate holds inline data,
    the resolver throws an error whose message quotes the response's text
    verbatim, or the fixed placeholder [No text response received.] when
    the response has no text. *)
Theorem resolver_no_image (response : GenerateContentResponse) :
  (forall ps, firstCandidateParts response = Some ps ->
              Forall (fun p => inlineData p = None) ps) ->
  (forall t, response_text response = Some t -> t <> [] ->
     processGeminiResponse response =
     Throw (JsError (js "The AI model responded with text instead of an image: "
                     ++ dq ++ t ++ dq))) /\
  (response_text response = None \/ response_text response = Some [] ->
     processGeminiResponse response =
     Throw (JsError (js "The AI model responded with text instead of an image: "
                     ++ dq ++ js "No text response received." ++ dq))).
Proof.
  intros Hno.
  assert (Hres : processGeminiResponse response =
                 Throw (JsError
                   (js "The AI model responded with text instead of an image: "
                    ++ dq ++ textOrPlaceholder (response_text response) ++ dq))).
  { unfold processGeminiResponse.
    destruct (firstCandidateParts response) as [ps|]; cbn [mbind option_bind];
      [|done].
    by rewrite find_none_all; [|apply no_inline_Forall, Hno]. }
  split.
  - intros t Ht Hne. rewrite Hres, Ht. by destruct t.
  - intros [Ht|Ht]; by rewrite Hres, Ht.
Qed.

Lemma resolver_no_image_witness :
  processGeminiResponse proseResponse =
  Throw (JsError (js "The AI model responded with text instead of an image: "
                  ++ dq ++ js "I cannot edit this photo." ++ dq)).
Proof.
  apply (proj1 (resolver_no_image proseResponse
                  ltac:(intros ps [= <-]; repeat constructor))
           (js "I cannot edit this photo.")).
  - reflexivity.
  - discriminate.
Defined.

(** ** C7, C8, C10: prompt assembly *)

(** Every operation starts the exchange by sending the parts it built. *)
Lemma requestImage_first_call (endpoint : Endpoint) (failure : jsstring)
  (allParts : list Part) (w : World) :
  exists r rest,
    requestImage endpoint failure allParts w = (r, w ++ [EvCall allParts] ++ rest).
Proof.
  unfold requestImage, try_catch, bind.
  rewrite callImageModelWithRetry_attempts.
  destruct (attemptsFrom_first_call endpoint 1 [2; 3] allParts w)
    as (r & rest & ->).
  destruct r as [response|e].
  - unfold lift. destruct (processGeminiResponse response) as [url|e];
      [by eexists _, rest|].
    destruct (errorMessageOf e); by eexists _, rest.
  - destruct (errorMessageOf e); by eexists _, rest.
Qed.

Lemma gridLayoutTable_lookup (count : Z) (layout : jsstring) :
  gridLayoutTable !! count = Some layout <->
  (count, layout) ∈
    [(4, js "2x2"); (6, js "2x3"); (8, js "2x4"); (9, js "3x3"); (12, js "3x4")].
Proof.
  unfold gridLayoutTable. symmetry. apply elem_of_list_to_map.
  apply (bool_decide_unpack _). vm_compute. exact I.
Qed.

Lemma gridLayoutTable_outside (count : Z) :
  count ∉ [4; 6; 8; 9; 12] -> gridLayoutTable !! count = None.
Proof.
  intros Hout. unfold gridLayoutTable. apply not_elem_of_list_to_map.
  cbn [fmap list_fmap fst]. exact Hout.
Qed.

(** The claim as the specification words it fails: with the unsupported
    count 5 nothing is rejected; the prompt is built with the layout printed
    as [undefined], the request is sent and its answer returned. *)
Lemma photo_booth_unsupported_count_is_sent :
  (5 ∉ [4; 6; 8; 9; 12]) /\
  generatePhotoBoothImage imageEndpoint pngUrl 5 [] =
  (Ok (js "data:image/png;base64,QUJD"),
   [EvCall [imagePartOf (js "image/png") (js "iVBORw0KGgo=");
            textPartOf (photoBoothPrompt None)]]) /\
  Contains (photoBoothPrompt None) (js "Arrange the photos in a undefined grid.").
Proof.
  split; [apply (bool_decide_unpack _); vm_compute; exact I|].
  split; [vm_compute; reflexivity|].
  apply includes_spec. vm_compute. reflexivity.
Qed.

(** C7, as amended.  The count is not checked at run time.  For a count of
    the closed set the grid layout of the prompt is the entry of the table
    4 -> 2x2, 6 -> 2x3, 8 -> 2x4, 9 -> 3x3, 12 -> 3x4, which has no other
    entries; and for every count, whenever the image decodes, the operation
    goes on to send the image part followed by the prompt built from the
    table lookup. *)
Theorem photo_booth_layout (endpoint : Endpoint) (imageDataUrl m p : jsstring)
  (count : Z) (w : World) :
  decode imageDataUrl = Some (m, p) ->
  (forall layout,
      (count, layout) ∈
        [(4, js "2x2"); (6, js "2x3"); (8, js "2x4"); (9, js "3x3"); (12, js "3x4")] ->
      gridLayoutTable !! count = Some layout /\
      Contains (photoBoothPrompt (gridLayoutTable !! count))
        (js "Arrange the photos in a " ++ layout ++ js " grid.")) /\
  (count ∉ [4; 6; 8; 9; 12] -> gridLayoutTable !! count = None) /\
  photoBoothParts imageDataUrl count =
    Ok [imagePartOf m p; textPartOf (photoBoothPrompt (gridLayoutTable !! count))] /\
  exists r rest,
    generatePhotoBoothImage endpoint imageDataUrl count w =
    (r, w ++ [EvCall [imagePartOf m p;
                      textPartOf (photoBoothPrompt (gridLayoutTable !! count))]]
          ++ rest).
Proof.
  intros Hdec. unfold decode in Hdec. split; [|split; [|split]].
  - intros layout Hin.
    assert (Hlookup := proj2 (gridLayoutTable_lookup count layout) Hin).
    split; [exact Hlookup|]. rewrite Hlookup.
    apply includes_spec.
    repeat (apply elem_of_cons in Hin as [[= -> ->]|Hin];
            [vm_compute; reflexivity|]).
    by apply elem_of_nil in Hin.
  - apply gridLayoutTable_outside.
  - unfold photoBoothParts. by rewrite Hdec.
  - unfold generatePhotoBoothImage, bind, lift, photoBoothParts. rewrite Hdec.
    apply requestImage_first_call.
Qed.

Lemma photo_booth_layout_witness :
  gridLayoutTable !! 6 = Some (js "2x3") /\
  Contains (photoBoothPrompt (gridLayoutTable !! 6))
    (js "Arrange the photos in a " ++ js "2x3" ++ js " grid.").
Proof.
  apply (proj1 (photo_booth_layout imageEndpoint pngUrl (js "image/png")
                  (js "iVBORw0KGgo=") 6 [] eq_refl) (js "2x3")).
  apply list_elem_of_In. simpl. right. left. reflexivity.
Defined.

Lemma trimStart_nil (s : jsstring) :
  trimStart s = [] <-> Forall (fun c => is_js_space c = true) s.
Proof.
  induction s as [|c s IH]; simpl.
  - split; [constructor | done].
  - destruct (is_js_space c) eqn:Hc.
    + rewrite IH. split; [by constructor | by inversion 1].
    + split; [done | inversion 1; congruence].
Qed.

Lemma trimStart_suffix (s : jsstring) :
  exists spaces, s = spaces ++ trimStart s /\
                 Forall (fun c => is_js_space c = true) spaces.
Proof.
  induction s as [|c s (spaces & Hs & Hsp)]; simpl.
  - by exists [].
  - destruct (is_js_space c) eqn:Hc.
    + exists (c :: spaces). split; [by rewrite Hs at 1 | by constructor].
    + by exists [].
Qed.

(** After trimming nothing is left exactly when the string is made of
    white space only. *)
Lemma trim_nil (s : jsstring) :
  trim s = [] <-> Forall (fun c => is_js_space c = true) s.
Proof.
  unfold trim.
  destruct (trimStart_suffix s) as (spaces & Hs & Hsp).
  split.
  - intros H. apply (f_equal (@rev N)) in H. rewrite rev_involutive in H.
    simpl in H. apply trimStart_nil in H.
    apply Forall_rev in H. rewrite rev_involutive in H.
    rewrite Hs. by apply Forall_app.
  - intros H. apply trimStart_nil in H. rewrite H. reflexivity.
Qed.

Lemma hasInstructions_NonBlank (additionalInstructions : option jsstring) :
  hasInstructions additionalInstructions = true <-> NonBlank additionalInstructions.
Proof.
  unfold hasInstructions, NonBlank, js_eqb.
  destruct additionalInstructions as [[|c s]|].
  - split; [done | intros (s & [= <-] & Hs); by destruct Hs].
  - rewrite negb_true_iff, bool_decide_eq_false. split; [eauto|].
    by intros (s' & [= <-] & Hs).
  - split; [done | by intros (s & Hs & _)].
Qed.

Lemma withInstructions_NonBlank (promptText : jsstring)
  (additionalInstructions : option jsstring) :
  (NonBlank additionalInstructions ->
   withInstructions promptText additionalInstructions =
   promptText ++ regenerationBlock additionalInstructions) /\
  (~ NonBlank additionalInstructions ->
   withInstructions promptText additionalInstructions = promptText).
Proof.
  unfold withInstructions.
  destruct (hasInstructions additionalInstructions) eqn:Hh.
  - apply hasInstructions_NonBlank in Hh. split; [done | by intros []].
  - split; [|done]. intros Hnb. apply hasInstructions_NonBlank in Hnb. congruence.
Qed.

(** A string is made of white space only, or holds some other character. *)
Lemma blank_or_not (s : jsstring) :
  Forall (fun c => is_js_space c = true) s \/
  Exists (fun c => is_js_space c = false) s.
Proof.
  induction s as [|c s [IH|IH]].
  - left. constructor.
  - destruct (is_js_space c) eqn:Hc.
    + left. by constructor.
    + right. by apply Exists_cons_hd.
  - right. by apply Exists_cons_tl.
Qed.

Lemma blank_not_both (s : jsstring) :
  Forall (fun c => is_js_space c = true) s ->
  Exists (fun c => is_js_space c = false) s -> False.
Proof.
  intros Hall Hex. apply Exists_exists in Hex as (c & Hc & Hspace).
  rewrite Forall_forall in Hall. specialize (Hall c Hc). congruence.
Qed.

(** Non-empty after trimming, on the characters. *)
Lemma NonBlank_chars (additionalInstructions : option jsstring) :
  NonBlank additionalInstructions <->
  exists s, additionalInstructions = Some s /\
            Exists (fun c => is_js_space c = false) s.
Proof.
  unfold NonBlank. split; intros (s & Hs & H); exists s; (split; [done|]).
  - destruct (blank_or_not s) as [Hall|Hex]; [|done].
    by apply trim_nil in Hall.
  - rewrite trim_nil. intros Hall. by eapply blank_not_both.
Qed.

(** C8. For a receiving image [A] and a face-source image [B], each of the
    shape [data:<media type>;base64,<payload>], the face swap builds exactly
    three parts: the inline-image part with the media type and payload of
    [A], then the one with those of [B], then the instruction text; these
    are the parts handed to the endpoint.  The instruction text is the
    template followed by the regeneration-instructions block, which quotes
    the refinement string as it was given, when that string holds a
    character that is not white space; it is the bare template when there
    is no refinement string or it is made of white space only; so the block
    is there exactly in the first case. *)
Theorem face_swap_parts_order (endpoint : Endpoint) (A B : jsstring)
  (_unused : JsAny) (additionalInstructions : option jsstring) (w : World)
  (mA dA mB dB : jsstring) :
  DataUrlPattern A mA dA ->
  DataUrlPattern B mB dB ->
  exists instruction : jsstring,
    swapFacesParts A B _unused additionalInstructions =
      Ok [ {| text := None;
              inlineData := Some {| mimeType := Some mA; data := Some dA |} |};
           {| text := None;
              inlineData := Some {| mimeType := Some mB; data := Some dB |} |};
           {| text := Some instruction; inlineData := None |} ] /\
    (forall s,
        additionalInstructions = Some s ->
        Exists (fun c => is_js_space c = false) s ->
        instruction =
          faceSwapPrompt ++ nl ++ nl ++ js "**REGENERATION INSTRUCTIONS:**"
          ++ nl ++ s) /\
    (additionalInstructions = None \/
     (exists s, additionalInstructions = Some s /\
                Forall (fun c => is_js_space c = true) s) ->
     instruction = faceSwapPrompt) /\
    (instruction <> faceSwapPrompt <->
     exists s, additionalInstructions = Some s /\
               Exists (fun c => is_js_space c = false) s) /\
    exists r rest,
      swapFacesInImage endpoint A B _unused additionalInstructions w =
      (r, w ++ [EvCall
                  [ {| text := None;
                       inlineData := Some {| mimeType := Some mA;
                                             data := Some dA |} |};
                    {| text := None;
                       inlineData := Some {| mimeType := Some mB;
                                             data := Some dB |} |};
                    {| text := Some instruction; inlineData := None |} ]]
            ++ rest).
Proof.
  intros HA HB. apply matchDataUrl_spec in HA, HB.
  exists (withInstructions faceSwapPrompt additionalInstructions).
  assert (Hparts : swapFacesParts A B _unused additionalInstructions =
                   Ok [imagePartOf mA dA; imagePartOf mB dB;
                       textPartOf (withInstructions faceSwapPrompt
                                     additionalInstructions)]).
  { unfold swapFacesParts. by rewrite HA, HB. }
  destruct (withInstructions_NonBlank faceSwapPrompt additionalInstructions)
    as [Hyes Hno].
  assert (Hgrow : faceSwapPrompt ++ regenerationBlock additionalInstructions
                  <> faceSwapPrompt).
  { intros Heq. apply (f_equal length) in Heq. rewrite length_app in Heq.
    unfold regenerationBlock in Heq. rewrite !length_app in Heq.
    simpl in Heq. lia. }
  split; [exact Hparts|]. split; [|split; [|split]].
  - intros s Hs Hex. rewrite Hyes by (apply NonBlank_chars; eauto).
    unfold regenerationBlock. by rewrite Hs.
  - intros Hblank. apply Hno. rewrite NonBlank_chars. intros (s & Hs & Hex).
    destruct Hblank as [Hnone|(s' & Hs' & Hall)]; [congruence|].
    assert (s' = s) as -> by congruence. by eapply blank_not_both.
  - rewrite <- NonBlank_chars. split.
    + intros Hne. destruct (hasInstructions additionalInstructions) eqn:Hh.
      * by apply hasInstructions_NonBlank.
      * unfold withInstructions in Hne. rewrite Hh in Hne. by destruct Hne.
    + intros Hnb. by rewrite (Hyes Hnb).
  - unfold swapFacesInImage, bind, lift. rewrite Hparts.
    apply requestImage_first_call.
Qed.

Lemma face_swap_parts_order_witness :
  exists instruction : jsstring,
    swapFacesParts pngUrl jpegUrl JsUndefined (Some (js "  keep the smile ")) =
      Ok [ {| text := None;
              inlineData := Some {| mimeType := Some (js "image/png");
                                    data := Some (js "iVBORw0KGgo=") |} |};
           {| text := None;
              inlineData := Some {| mimeType := Some (js "image/jpeg");
                                    data := Some (js "/9j/4AAQ") |} |};
           {| text := Some instruction; inlineData := None |} ] /\
    (forall s,
        Some (js "  keep the smile ") = Some s ->
        Exists (fun c => is_js_space c = false) s ->
        instruction =
          faceSwapPrompt ++ nl ++ nl ++ js "**REGENERATION INSTRUCTIONS:**"
          ++ nl ++ s) /\
    (Some (js "  keep the smile ") = None \/
     (exists s, Some (js "  keep the smile ") = Some s /\
                Forall (fun c => is_js_space c = true) s) ->
     instruction = faceSwapPrompt) /\
    (instruction <> faceSwapPrompt <->
     exists s, Some (js "  keep the smile ") = Some s /\
               Exists (fun c => is_js_space c = false) s) /\
    exists r rest,
      swapFacesInImage imageEndpoint pngUrl jpegUrl JsUndefined
        (Some (js "  keep the smile ")) [] =
      (r, [] ++ [EvCall
                   [ {| text := None;
                        inlineData := Some {| mimeType := Some (js "image/png");
                                              data := Some (js "iVBORw0KGgo=") |} |};
                     {| text := None;
                        inlineData := Some {| mimeType := Some (js "image/jpeg");
                                              data := Some (js "/9j/4AAQ") |} |};
                     {| text := Some instruction; inlineData := None |} ]]
             ++ rest).
Proof.
  apply (face_swap_parts_order imageEndpoint pngUrl jpegUrl JsUndefined
           (Some (js "  keep the smile ")) []).
  - exists (js "png").
    split; [discriminate|]. split; [repeat constructor|].
    split; [reflexivity|]. split; [repeat constructor | reflexivity].
  - exists (js "jpeg").
    split; [discriminate|]. split; [repeat constructor|].
    split; [reflexivity|]. split; [repeat constructor | reflexivity].
Defined.

(** C10. The third parameter of the face swap has no influence: for any two
    values of it, with everything else fixed, the same parts are built and
    the same outcome and the same exchange with the endpoint result. *)
Theorem face_swap_ignores_third_parameter (endpoint : Endpoint)
  (sourceImageDataUrl targetFaceDataUrl : jsstring) (unused1 unused2 : JsAny)
  (additionalInstructions : option jsstring) (w : World) :
  swapFacesParts sourceImageDataUrl targetFaceDataUrl unused1 additionalInstructions
  = swapFacesParts sourceImageDataUrl targetFaceDataUrl unused2 additionalInstructions
  /\
  swapFacesInImage endpoint sourceImageDataUrl targetFaceDataUrl unused1
    additionalInstructions w
  = swapFacesInImage endpoint sourceImageDataUrl targetFaceDataUrl unused2
      additionalInstructions w.
Proof. split; reflexivity. Qed.

(** ** C9: the worker pool *)

Lemma NoDup_ids_inj (l : list PromptItem) (p q : PromptItem) :
  NoDup (p_id <$> l) -> p ∈ l -> q ∈ l -> p_id p = p_id q -> p = q.
Proof.
  induction l as [|x l IH]; intros Hnd Hp Hq Hid; [by inversion Hp|].
  rewrite fmap_cons in Hnd. apply NoDup_cons in Hnd as [Hx Hnd].
  apply elem_of_cons in Hp as [->|Hp]; apply elem_of_cons in Hq as [->|Hq].
  - done.
  - destruct Hx. rewrite Hid. by apply list_elem_of_fmap_2.
  - destruct Hx. rewrite <- Hid. by apply list_elem_of_fmap_2.
  - by apply IH.
Qed.

Lemma elem_of_insert_inv {A} (l : list A) (i : nat) (x y : A) :
  x ∈ <[i:=y]> l -> x = y \/ x ∈ l.
Proof.
  intros Hx. apply list_elem_of_lookup in Hx as [k Hk].
  destruct (decide (i = k)) as [->|Hne].
  - left. assert (k < length l)%nat as Hlt.
    { apply lookup_lt_Some in Hk. by rewrite length_insert in Hk. }
    rewrite list_lookup_insert_eq in Hk by done. congruence.
  - right. rewrite list_lookup_insert_ne in Hk by done.
    apply list_elem_of_lookup. eauto.
Qed.

Lemma elem_of_insert_other {A} (l : list A) (i : nat) (x y z : A) :
  l !! i = Some z -> x ∈ l -> x <> z -> x ∈ <[i:=y]> l.
Proof.
  intros Hi Hx Hne. apply list_elem_of_lookup in Hx as [k Hk].
  apply list_elem_of_lookup. exists k.
  rewrite list_lookup_insert_ne; [done|]. intros ->. congruence.
Qed.

Lemma elem_of_insert_here {A} (l : list A) (i : nat) (y z : A) :
  l !! i = Some z -> y ∈ <[i:=y]> l.
Proof.
  intros Hi. apply list_elem_of_lookup. exists i.
  apply list_lookup_insert_eq. by apply lookup_lt_Some in Hi.
Qed.

Lemma filter_length_insert {A} (f : A -> bool) (l : list A) (i : nat) (x y : A) :
  l !! i = Some x ->
  (length (List.filter f (<[i:=y]> l)) + (if f x then 1 else 0)
   = length (List.filter f l) + (if f y then 1 else 0))%nat.
Proof.
  revert i. induction l as [|z l IH]; intros [|i] Hi; try done; simpl in *.
  - injection Hi as ->. destruct (f x), (f y); simpl; lia.
  - specialize (IH i Hi). destruct (f z); simpl; lia.
Qed.

Section FanOutProofs.

Context (operation : jsstring -> list jsstring -> Result jsstring).
Context (resizedImage : jsstring).

Lemma processSinglePrompt_cell (p : PromptItem)
  (prev : gmap jsstring GeneratedImage) :
  processSinglePrompt operation p resizedImage prev =
  <[p_id p := settledCell operation resizedImage p]> prev.
Proof.
  unfold processSinglePrompt, settledCell.
  by destruct (operation (prompt p) [resizedImage]) as [resultUrl|[message|json]].
Qed.

(** A settling request writes its own item's cell and no other. *)
Lemma settle_other_cells (st : Pool) (i : nat) (job : PromptItem) (k : jsstring) :
  workers st !! i = Some (Awaiting job) -> k <> p_id job ->
  generatedImages (settle operation resizedImage st i) !! k
  = generatedImages st !! k.
Proof.
  intros Hi Hk. unfold settle. rewrite Hi, processSinglePrompt_cell.
  destruct (workerLoop (queue st)) as [w q]. cbn [generatedImages].
  by rewrite lookup_insert_ne.
Qed.

Lemma startWorkers_spec (n : nat) (q : list PromptItem)
  (ws : list Worker) (q' : list PromptItem) :
  startWorkers n q = (ws, q') ->
  length ws = n /\
  (forall p, p ∈ q <-> Awaiting p ∈ ws \/ p ∈ q') /\
  (Finished ∈ ws -> q' = []).
Proof.
  revert q ws q'. induction n as [|n IH]; intros q ws q'; simpl.
  - intros [= <- <-]. split; [done|]. split.
    + intros p. split; [by right | intros [H|H]; [by inversion H | done]].
    + by inversion 1.
  - destruct q as [|p0 rest]; simpl.
    + destruct (startWorkers n []) as [ws' q''] eqn:Hs. intros [= <- <-].
      destruct (IH _ _ _ Hs) as (Hlen & Hmem & Hfin).
      assert (q'' = []) as ->.
      { destruct q'' as [|x q'']; [done|].
        assert (x ∈ []) as Hx by (apply Hmem; right; left). by inversion Hx. }
      split; [simpl; by rewrite Hlen|]. split; [|done].
      intros p. split; [by inversion 1|].
      intros [H|H]; [|done].
      apply elem_of_cons in H as [H|H]; [done|]. apply Hmem. by left.
    + destruct (startWorkers n rest) as [ws' q''] eqn:Hs. intros [= <- <-].
      destruct (IH _ _ _ Hs) as (Hlen & Hmem & Hfin).
      split; [simpl; by rewrite Hlen|]. split.
      * intros p. rewrite elem_of_cons, (Hmem p), elem_of_cons. split.
        -- intros [->|[H|H]]; [left; by left | left; by right | by right].
        -- intros [[[= ->]|H]|H]; [by left | right; by left | right; by right].
      * intros H. apply elem_of_cons in H as [H|H]; [done | by apply Hfin].
Qed.

Context (promptsToUse : list PromptItem).
Context (Hids : NoDup (p_id <$> promptsToUse)).

Local Abbreviation Inv := (PoolInv operation resizedImage promptsToUse).

Lemma startBatch_inv : Inv (startBatch promptsToUse).
Proof.
  unfold startBatch.
  destruct (startWorkers concurrencyLimit promptsToUse) as [ws q] eqn:Hs.
  destruct (startWorkers_spec _ _ _ _ Hs) as (Hlen & Hmem & Hfin).
  constructor; cbn [queue workers generatedImages].
  - intros p [H|H]; apply Hmem; [by right | by left].
  - intros p Hp. apply Hmem in Hp as [H|H]; [right; by left | by left].
  - exact Hfin.
  - exact Hlen.
Qed.

Lemma settle_inv (st : Pool) (i : nat) :
  Inv st -> Inv (settle operation resizedImage st i).
Proof.
  intros [Hknown Hprog Hdrain Hlen]. unfold settle.
  destruct (workers st !! i) as [[job|]|] eqn:Hi; [|by constructor..].
  rewrite processSinglePrompt_cell.
  assert (Awaiting job ∈ workers st) as Hjob
      by (apply list_elem_of_lookup; eauto).
  assert (job ∈ promptsToUse) as Hjob' by (apply Hknown; by right).
  destruct (queue st) as [|p0 rest] eqn:Hq; cbn [workerLoop];
    constructor; cbn [queue workers generatedImages].
  - intros p [H|H]; [by inversion H|].
    apply elem_of_insert_inv in H as [H|H]; [done|]. apply Hknown. by right.
  - intros p Hp. right.
    destruct (decide (p = job)) as [->|Hne].
    { right. apply lookup_insert_eq. }
    destruct (Hprog p Hp) as [H|[H|H]].
    + by inversion H.
    + left. eapply elem_of_insert_other; [exact Hi | exact H | congruence].
    + right. rewrite lookup_insert_ne; [done|].
      intros Hid. apply Hne. symmetry. by apply (NoDup_ids_inj promptsToUse).
  - done.
  - by rewrite length_insert.
  - intros p [H|H].
    + apply Hknown. left. by right.
    + apply elem_of_insert_inv in H as [[= ->]|H].
      * apply Hknown. left. by left.
      * apply Hknown. by right.
  - intros p Hp.
    destruct (decide (p = job)) as [->|Hne].
    { right. right. apply lookup_insert_eq. }
    destruct (Hprog p Hp) as [H|[H|H]].
    + apply elem_of_cons in H as [->|H]; [|by left].
      right. left. eapply elem_of_insert_here. exact Hi.
    + right. left.
      eapply elem_of_insert_other; [exact Hi | exact H | congruence].
    + right. right. rewrite lookup_insert_ne; [done|].
      intros Hid. apply Hne. symmetry. by apply (NoDup_ids_inj promptsToUse).
  - intros H. apply elem_of_insert_inv in H as [H|H]; [done|].
    by apply Hdrain in H.
  - by rewrite length_insert.
Qed.

Lemma runSchedule_inv (st : Pool) (schedule : list nat) :
  Inv st -> Inv (runSchedule operation resizedImage st schedule).
Proof.
  revert st. induction schedule as [|i schedule IH]; intros st Hst; [done|].
  apply IH. by apply settle_inv.
Qed.

Lemma batchCompleted_spec (st : Pool) :
  batchCompleted st = true <-> forall w, w ∈ workers st -> w = Finished.
Proof.
  unfold batchCompleted. rewrite forallb_Forall_true, Forall_forall.
  split; intros H w Hw.
  - specialize (H w Hw). by apply bool_decide_eq_true in H.
  - apply bool_decide_eq_true. by apply H.
Qed.

(** Once every worker has returned, every item's cell holds the outcome
    of its own operation. *)
Lemma completed_cells (st : Pool) (p : PromptItem) :
  Inv st -> batchCompleted st = true -> p ∈ promptsToUse ->
  generatedImages st !! p_id p = Some (settledCell operation resizedImage p).
Proof.
  intros [Hknown Hprog Hdrain Hlen] Hdone Hp.
  rewrite batchCompleted_spec in Hdone.
  assert (Finished ∈ workers st) as Hfin.
  { destruct (workers st) as [|w ws] eqn:Hws; [done|].
    rewrite (Hdone w) by (by left). by left. }
  destruct (Hprog p Hp) as [H|[H|H]]; [| |done].
  - rewrite (Hdrain Hfin) in H. by inversion H.
  - by apply Hdone in H.
Qed.

(** While a request is in flight the batch can move on, and each
    settlement leaves less to do. *)
Lemma batch_terminates (n : nat) (st : Pool) :
  (outstanding st <= n)%nat ->
  exists more, batchCompleted (runSchedule operation resizedImage st more) = true.
Proof.
  revert st. induction n as [|n IH]; intros st Hn.
  - exists []. cbn. apply batchCompleted_spec. intros w Hw.
    destruct w as [job|]; [|done].
    unfold outstanding in Hn.
    apply list_elem_of_In in Hw.
    assert (In (Awaiting job) (List.filter is_awaiting (workers st))) as Hin
        by (by apply List.filter_In).
    destruct (List.filter is_awaiting (workers st)); [done | simpl in Hn; lia].
  - destruct (batchCompleted st) eqn:Hdone; [by exists []|].
    assert (exists i job, workers st !! i = Some (Awaiting job)) as (i & job & Hi).
    { destruct (decide (Forall (fun w => w = Finished) (workers st)))
        as [Hall|Hnot].
      - rewrite (proj2 (batchCompleted_spec st)) in Hdone; [done|].
        by apply Forall_forall.
      - apply not_Forall_Exists in Hnot; [|apply _].
        apply Exists_exists in Hnot as (w & Hw & Hwne).
        apply list_elem_of_lookup in Hw as [i Hi].
        destruct w as [job|]; [eauto | by destruct Hwne]. }
    destruct (IH (settle operation resizedImage st i)) as [more Hmore].
    + unfold settle, outstanding in *. rewrite Hi.
      pose proof (filter_length_insert is_awaiting (workers st) i
                    (Awaiting job)) as Hcount.
      destruct (queue st) as [|p0 rest]; cbn [workerLoop queue workers length].
      * specialize (Hcount Finished Hi). simpl in *. lia.
      * specialize (Hcount (Awaiting p0) Hi). simpl in *. lia.
    + exists (i :: more). exact Hmore.
Qed.

End FanOutProofs.

(** C9. In a batch over items with distinct ids, whatever the order in
    which the requests settle: once every worker has returned, the cell of
    each item whose operation succeeded is [done] with its result image and
    the cell of each item whose operation failed is [error] with the
    failure's message, so no failure reaches the batch or another item;
    the batch can always run to completion; and a settling request leaves
    every cell but its own item's as it was. *)
Theorem fan_out_isolation
  (operation : jsstring -> list jsstring -> Result jsstring)
  (resizedImage : jsstring) (promptsToUse : list PromptItem)
  (schedule : list nat) :
  NoDup (p_id <$> promptsToUse) ->
  let run := runSchedule operation resizedImage (startBatch promptsToUse) in
  (batchCompleted (run schedule) = true ->
   forall p, p ∈ promptsToUse ->
     (forall resultUrl,
         operation (prompt p) [resizedImage] = Ok resultUrl ->
         generatedImages (run schedule) !! p_id p =
         Some {| g_id := p_id p; status := done;
                 url := Some resultUrl; g_error := None |}) /\
     (forall err,
         operation (prompt p) [resizedImage] = Throw err ->
         generatedImages (run schedule) !! p_id p =
         Some {| g_id := p_id p; status := error; url := None;
                 g_error := Some (match err with
                                  | JsError message => message
                                  | JsNonError _ => js "An unknown error occurred."
                                  end) |})) /\
  (exists more, batchCompleted (run (schedule ++ more)) = true) /\
  (forall i job k,
      workers (run schedule) !! i = Some (Awaiting job) -> k <> p_id job ->
      generatedImages (settle operation resizedImage (run schedule) i) !! k
      = generatedImages (run schedule) !! k).
Proof.
  intros Hids run.
  assert (Hinv : PoolInv operation resizedImage promptsToUse (run schedule))
    by (apply runSchedule_inv; [done | apply startBatch_inv]).
  split; [|split].
  - intros Hdone p Hp.
    pose proof (completed_cells operation resizedImage promptsToUse
                  (run schedule) p Hinv Hdone Hp) as Hcell.
    unfold settledCell in Hcell.
    split.
    + intros resultUrl Hok. by rewrite Hok in Hcell.
    + intros err Herr. rewrite Herr in Hcell. by destruct err.
  - destruct (batch_terminates operation resizedImage
                (outstanding (run schedule)) (run schedule)) as [more Hmore];
      [lia|].
    exists more. unfold run, runSchedule in *. by rewrite foldl_app.
  - intros i job k. apply settle_other_cells.
Qed.

Lemma fan_out_isolation_witness :
  let final :=
    runSchedule pickyOperation pngUrl (startBatch fivePrompts)
      [2; 0; 1; 2; 0]%nat in
  generatedImages final !! js "prompt3" =
    Some {| g_id := js "prompt3"; status := error; url := None;
            g_error := Some (js "The AI model failed to generate an image. Details: 400 INVALID_ARGUMENT: prompt rejected") |} /\
  generatedImages final !! js "prompt4" =
    Some {| g_id := js "prompt4"; status := done;
            url := Some (js "data:image/png;base64,QUJD"); g_error := None |}.
Proof.
  intros final.
  assert (Hids : NoDup (p_id <$> fivePrompts))
    by (apply (bool_decide_unpack _); vm_compute; exact I).
  pose proof (proj1 (fan_out_isolation pickyOperation pngUrl fivePrompts
                       [2; 0; 1; 2; 0]%nat Hids) eq_refl) as Hcells.
  split.
  - apply (proj2 (Hcells {| p_id := js "prompt3";
                            prompt := js "Portrait, style three" |}
                    ltac:(apply list_elem_of_In; simpl; tauto))
             (JsError (js "The AI model failed to generate an image. Details: 400 INVALID_ARGUMENT: prompt rejected"))).
    reflexivity.
  - apply (proj1 (Hcells {| p_id := js "prompt4";
                            prompt := js "Portrait, style four" |}
                    ltac:(apply list_elem_of_In; simpl; tauto))
             (js "data:image/png;base64,QUJD")).
    reflexivity.
Defined.

(** * Further properties of the service and the components *)

(** ** The transport, whatever the endpoint does *)

Lemma call_count_after_two_retries (w : World) (sent : list Part) (a b : Z) :
  call_count (w ++ [EvCall sent; EvSleep a; EvCall sent; EvSleep b])
  = S (S (call_count w)).
Proof. rewrite call_count_app. change (call_count [_; _; _; _]) with 2%nat. lia. Qed.

(** The three ways a transport call can go. *)
Lemma callImageModelWithRetry_cases (endpoint : Endpoint) (sent : list Part)
  (w : World) :
  callImageModelWithRetry endpoint sent w
  = (received (endpoint (call_count w) sent), w ++ [EvCall sent]) \/
  callImageModelWithRetry endpoint sent w
  = (received (endpoint (S (call_count w)) sent),
     w ++ [EvCall sent; EvSleep 1000; EvCall sent]) \/
  callImageModelWithRetry endpoint sent w
  = (received (endpoint (S (S (call_count w))) sent),
     w ++ [EvCall sent; EvSleep 1000; EvCall sent; EvSleep 2000; EvCall sent]).
Proof.
  rewrite callImageModelWithRetry_attempts, attemptsFrom_cons.
  destruct (endpoint (call_count w) sent) as [r1|e1] eqn:H1; [by left|].
  destruct (isInternalError e1); cbn [andb]; [|by left].
  change (1 <? maxRetries) with true. cbv iota. right.
  rewrite attemptsFrom_cons, call_count_after_retry.
  change (initialDelay * 2 ^ (1 - 1)) with 1000.
  destruct (endpoint (S (call_count w)) sent) as [r2|e2] eqn:H2;
    [left; by rewrite <- app_assoc|].
  destruct (isInternalError e2); cbn [andb]; [|left; by rewrite <- app_assoc].
  change (2 <? maxRetries) with true. cbv iota. right.
  rewrite attemptsFrom_cons, <- app_assoc. cbn [app].
  change (initialDelay * 2 ^ (2 - 1)) with 2000.
  rewrite call_count_after_two_retries.
  destruct (endpoint (S (S (call_count w))) sent) as [r3|e3];
    [by rewrite <- app_assoc|].
  change (3 <? maxRetries) with false. rewrite andb_false_r.
  by rewrite <- app_assoc.
Qed.

(** A failure the transport hands on has a detail. *)
Lemma callImageModelWithRetry_detail (endpoint : Endpoint) (sent : list Part)
  (w w' : World) (e : Thrown) :
  callImageModelWithRetry endpoint sent w = (Throw e, w') ->
  exists errorMessage, errorMessageOf e = JsonText errorMessage.
Proof.
  destruct (callImageModelWithRetry_cases endpoint sent w) as [-> | [-> | ->]];
    intros [= H _]; by eapply received_detail.
Qed.

(** X1. One transport call leaves one of exactly three logs behind: a
    single request; a request, 1000ms and a request; or a request, 1000ms,
    a request, 2000ms and a request, each request carrying the same parts.
    What the caller receives goes back to the endpoint's answer to the last
    of these requests, so the throw that closes the function is never
    reached: it is that answer when the answer is a response, an [Error] or
    a thrown value that has a JSON text, and the [TypeError] of the [catch]
    block when the answer is a thrown value for which [JSON.stringify]
    gives [undefined] or throws. *)
Theorem transport_log_and_outcome (endpoint : Endpoint) (sent : list Part)
  (w : World) :
  let n := call_count w in
  let handed (answer : Result GenerateContentResponse) :=
    match answer with
    | Ok response => Ok response
    | Throw (JsError message) => Throw (JsError message)
    | Throw (JsNonError (JsonText json)) => Throw (JsNonError (JsonText json))
    | Throw (JsNonError (JsonUndefined typeError)) => Throw (JsError typeError)
    | Throw (JsNonError (JsonThrows typeError)) => Throw (JsError typeError)
    end in
  callImageModelWithRetry endpoint sent w
  = (handed (endpoint n sent), w ++ [EvCall sent]) \/
  callImageModelWithRetry endpoint sent w
  = (handed (endpoint (S n) sent), w ++ [EvCall sent; EvSleep 1000; EvCall sent]) \/
  callImageModelWithRetry endpoint sent w
  = (handed (endpoint (S (S n)) sent),
     w ++ [EvCall sent; EvSleep 1000; EvCall sent; EvSleep 2000; EvCall sent]).
Proof. exact (callImageModelWithRetry_cases endpoint sent w). Qed.

(** X2. A transient failure does not reach the caller when a later attempt
    succeeds: the response of the first successful attempt is returned, at
    the first attempt without any wait, at the second after 1000ms, at the
    third after 1000ms and 2000ms. *)
Theorem transport_recovers (endpoint : Endpoint) (sent : list Part) (w : World)
  (response : GenerateContentResponse) :
  (endpoint (call_count w) sent = Ok response ->
   callImageModelWithRetry endpoint sent w = (Ok response, w ++ [EvCall sent])) /\
  (forall e1,
     endpoint (call_count w) sent = Throw e1 -> isInternalError e1 = true ->
     endpoint (S (call_count w)) sent = Ok response ->
     callImageModelWithRetry endpoint sent w
     = (Ok response, w ++ [EvCall sent; EvSleep 1000; EvCall sent])) /\
  (forall e1 e2,
     endpoint (call_count w) sent = Throw e1 -> isInternalError e1 = true ->
     endpoint (S (call_count w)) sent = Throw e2 -> isInternalError e2 = true ->
     endpoint (S (S (call_count w))) sent = Ok response ->
     callImageModelWithRetry endpoint sent w
     = (Ok response,
        w ++ [EvCall sent; EvSleep 1000; EvCall sent; EvSleep 2000; EvCall sent])).
Proof.
  rewrite callImageModelWithRetry_attempts. split; [|split].
  - intros H1. by rewrite attemptsFrom_cons, H1.
  - intros e1 H1 T1 H2. rewrite attemptsFrom_cons, H1, T1.
    change (true && (1 <? maxRetries)) with true. cbv iota.
    rewrite attemptsFrom_cons, call_count_after_retry, H2.
    by rewrite <- app_assoc.
  - intros e1 e2 H1 T1 H2 T2 H3. rewrite attemptsFrom_cons, H1, T1.
    change (true && (1 <? maxRetries)) with true. cbv iota.
    rewrite attemptsFrom_cons, call_count_after_retry, H2, T2.
    change (true && (2 <? maxRetries)) with true. cbv iota.
    rewrite attemptsFrom_cons, <- app_assoc. cbn [app].
    rewrite call_count_after_two_retries, H3. by rewrite <- app_assoc.
Qed.

Lemma transport_recovers_witness :
  callImageModelWithRetry flakyEndpoint [textPartOf (js "hi")] []
  = (Ok sampleResponse,
     [EvCall [textPartOf (js "hi")]; EvSleep 1000;
      EvCall [textPartOf (js "hi")]; EvSleep 2000;
      EvCall [textPartOf (js "hi")]]).
Proof.
  apply (proj2 (proj2 (transport_recovers flakyEndpoint [textPartOf (js "hi")]
                         [] sampleResponse))
           (JsError (internalErrorMessage 0)) (JsError (internalErrorMessage 1)));
    reflexivity.
Defined.

(** ** What the operations do with their inputs and failures *)

Lemma matchDataUrl_encode (m d : jsstring) :
  validMediaType m = true -> validPayload d = true ->
  matchDataUrl (dataUrlOf {| mimeType := Some m; data := Some d |}) = Some (m, d).
Proof.
  intros Hm Hd. apply matchDataUrl_spec.
  destruct (validMediaType_inv m Hm) as (subtype & Hne & -> & Hw).
  exists subtype. repeat split; try done.
  apply forallb_Forall_true in Hd.
  eapply Forall_impl; [exact Hd|]. apply base64_not_line_terminator.
Qed.

Lemma processGeminiResponse_image (response : GenerateContentResponse)
  (before after : list Part) (part : Part) (b : Blob) :
  firstCandidateParts response = Some (before ++ part :: after) ->
  Forall (fun p => inlineData p = None) before ->
  inlineData part = Some b ->
  processGeminiResponse response = Ok (dataUrlOf b).
Proof.
  intros Hparts Hbefore Hpart. unfold processGeminiResponse.
  rewrite Hparts. cbn [mbind option_bind].
  rewrite find_first;
    [| by apply no_inline_Forall | apply hasInlineData_true; eauto].
  cbn [mbind option_bind]. by rewrite Hpart.
Qed.

Lemma processGeminiResponse_throws (response : GenerateContentResponse)
  (e : Thrown) :
  processGeminiResponse response = Throw e -> exists message, e = JsError message.
Proof.
  unfold processGeminiResponse.
  destruct (_ ≫= inlineData); [done|]. intros [= <-]. by eexists.
Qed.

Lemma processGeminiResponse_no_image (response : GenerateContentResponse) :
  (forall ps, firstCandidateParts response = Some ps ->
              Forall (fun p => inlineData p = None) ps) ->
  processGeminiResponse response =
  Throw (JsError (js "The AI model responded with text instead of an image: "
                  ++ dq ++ textOrPlaceholder (response_text response) ++ dq)).
Proof.
  intros Hno. unfold processGeminiResponse.
  destruct (firstCandidateParts response) as [ps|]; cbn [mbind option_bind];
    [|done].
  by rewrite find_none_all; [|apply no_inline_Forall, Hno].
Qed.

(** X3. An image the resolver returns can be handed to any operation when
    its part declares a valid media type and payload: the data URL decodes
    to the image part with that media type and payload.  When the part
    declares no media type the resolver still returns a data URL, and the
    operations reject it with the format error. *)
Theorem resolved_image_as_input (response : GenerateContentResponse)
  (before after : list Part) (part : Part) (b : Blob) :
  firstCandidateParts response = Some (before ++ part :: after) ->
  Forall (fun p => inlineData p = None) before ->
  inlineData part = Some b ->
  exists u,
    processGeminiResponse response = Ok u /\
    (forall m d,
        mimeType b = Some m -> data b = Some d ->
        validMediaType m = true -> validPayload d = true ->
        decodeImagePart u = Ok ({| text := None;
                                   inlineData := Some {| mimeType := Some m;
                                                         data := Some d |} |})) /\
    (mimeType b = None ->
     decodeImagePart u = Throw (JsError invalidFormatMessage)).
Proof.
  intros Hparts Hbefore Hpart. exists (dataUrlOf b).
  split; [by eapply processGeminiResponse_image|]. split.
  - intros m d Hm Hd Hvm Hvd. unfold decodeImagePart.
    destruct b as [bm bd]. simpl in Hm, Hd. subst bm bd.
    by rewrite matchDataUrl_encode.
  - intros Hm. unfold decodeImagePart, dataUrlOf. by rewrite Hm.
Qed.

Lemma resolved_image_as_input_witness :
  exists u,
    processGeminiResponse sampleResponse = Ok u /\
    (forall m d,
        Some (js "image/png") = Some m -> Some (js "QUJD") = Some d ->
        validMediaType m = true -> validPayload d = true ->
        decodeImagePart u = Ok ({| text := None;
                                   inlineData := Some {| mimeType := Some m;
                                                         data := Some d |} |})) /\
    (Some (js "image/png") = None ->
     decodeImagePart u = Throw (JsError invalidFormatMessage)).
Proof.
  apply (resolved_image_as_input sampleResponse
           [textPartOf (js "Here is your image.")]
           [ {| text := None;
                inlineData := Some {| mimeType := Some (js "image/jpeg");
                                      data := Some (js "REVG") |} |} ]
           {| text := None;
              inlineData := Some {| mimeType := Some (js "image/png");
                                    data := Some (js "QUJD") |} |}
           {| mimeType := Some (js "image/png"); data := Some (js "QUJD") |}).
  - reflexivity.
  - repeat constructor.
  - reflexivity.
Defined.

(** The try block of an operation, by what the transport and the resolver
    give. *)
Lemma requestImage_cases (endpoint : Endpoint) (failure : jsstring)
  (allParts : list Part) (w : World) :
  requestImage endpoint failure allParts w =
  match callImageModelWithRetry endpoint allParts w with
  | (Ok response, w') =>
      match processGeminiResponse response with
      | Ok u => (Ok u, w')
      | Throw e =>
          (Throw (match errorMessageOf e with
                  | JsonText errorMessage =>
                      JsError (failure ++ js " Details: " ++ errorMessage)
                  | JsonUndefined _ =>
                      JsError (failure ++ js " Details: " ++ js "undefined")
                  | JsonThrows typeError => JsError typeError
                  end), w')
      end
  | (Throw e, w') =>
      (Throw (match errorMessageOf e with
              | JsonText errorMessage =>
                  JsError (failure ++ js " Details: " ++ errorMessage)
              | JsonUndefined _ =>
                  JsError (failure ++ js " Details: " ++ js "undefined")
              | JsonThrows typeError => JsError typeError
              end), w')
  end.
Proof.
  unfold requestImage, try_catch, bind, lift, throw.
  destruct (callImageModelWithRetry endpoint allParts w) as [[response|e] w'].
  - destruct (processGeminiResponse response) as [u|e]; [done|].
    by destruct (errorMessageOf e).
  - by destruct (errorMessageOf e).
Qed.

(** Whatever the try block of an operation throws is the operation's own
    sentence followed by a detail: the transport and the resolver only hand
    on failures that have one. *)
Lemma requestImage_failure (endpoint : Endpoint) (failure : jsstring)
  (allParts : list Part) (w : World) (e : Thrown) :
  fst (requestImage endpoint failure allParts w) = Throw e ->
  exists detail, e = JsError (failure ++ js " Details: " ++ detail).
Proof.
  rewrite requestImage_cases.
  destruct (callImageModelWithRetry endpoint allParts w) as [[response|e'] w'] eqn:Hrun.
  - destruct (processGeminiResponse response) as [u|e''] eqn:Hresolved; [done|].
    destruct (processGeminiResponse_throws _ _ Hresolved) as [message ->].
    intros [= <-]. eauto.
  - destruct (callImageModelWithRetry_detail _ _ _ _ _ Hrun) as [errorMessage ->].
    intros [= <-]. eauto.
Qed.

Lemma app_cons_not_self {A} (l rest : list A) (x : A) : l ++ [x] ++ rest <> l.
Proof.
  intros H. apply (f_equal length) in H. rewrite !length_app in H.
  simpl in H. lia.
Qed.

Lemma map_result_decode_ok (urls : list jsstring)
  (decoded : list (jsstring * jsstring)) :
  Forall2 (fun u md => matchDataUrl u = Some md) urls decoded ->
  map_result decodeImagePart urls
  = Ok ((fun md => imagePartOf md.1 md.2) <$> decoded).
Proof.
  induction 1 as [|u [m d] urls decoded Hu _ IH]; [done|].
  simpl. unfold decodeImagePart at 1. by rewrite Hu, IH.
Qed.

Lemma decode_all_or_some (urls : list jsstring) :
  (exists decoded, Forall2 (fun u md => matchDataUrl u = Some md) urls decoded) \/
  (exists u, u ∈ urls /\ matchDataUrl u = None).
Proof.
  induction urls as [|u urls [[decoded IH]|(v & Hv & Hnone)]].
  - left. by exists [].
  - destruct (matchDataUrl u) as [md|] eqn:Hu.
    + left. exists (md :: decoded). by constructor.
    + right. exists u. split; [by left | done].
  - right. exists v. split; [by right | done].
Qed.

(** X4. [generateStyledImage] leaves the endpoint alone exactly when its
    input is unusable: the list of images is empty, which gives the error
    that at least one image is required, or one of the images does not
    decode.  In every other case a request goes out. *)
Theorem styled_image_validation (endpoint : Endpoint) (prompt : jsstring)
  (imageDataUrls : list jsstring) (additionalInstructions : option jsstring)
  (w : World) :
  (imageDataUrls = [] ->
   generateStyledImage endpoint prompt imageDataUrls additionalInstructions w
   = (Throw (JsError (js "At least one image data URL is required.")), w)) /\
  (snd (generateStyledImage endpoint prompt imageDataUrls additionalInstructions w)
   = w
   <-> imageDataUrls = [] \/
       exists u, u ∈ imageDataUrls /\ decode u = None).
Proof.
  split; [by intros ->|]. split.
  - intros Hw. destruct imageDataUrls as [|u0 urls]; [by left|]. right.
    destruct (decode_all_or_some (u0 :: urls)) as [[decoded Hall]|Hsome];
      [|exact Hsome].
    exfalso. revert Hw. unfold generateStyledImage. cbn [length Nat.eqb].
    unfold bind, lift. rewrite (map_result_decode_ok _ _ Hall).
    destruct (requestImage_first_call endpoint
                (js "The AI model failed to generate an image.")
                (((fun md => imagePartOf md.1 md.2) <$> decoded)
                 ++ [textPartOf (withInstructions prompt additionalInstructions)])
                w) as (r & rest & ->).
    cbn [snd]. apply app_cons_not_self.
  - intros [->|(u & Hin & Hu)]; [done|].
    destruct imageDataUrls as [|u0 urls]; [by inversion Hin|].
    unfold generateStyledImage. cbn [length Nat.eqb]. unfold bind, lift.
    by rewrite (map_result_decode_rejects _ u Hin Hu).
Qed.

Lemma styled_image_validation_witness :
  generateStyledImage imageEndpoint (js "Make it a watercolor.") [] None []
  = (Throw (JsError (js "At least one image data URL is required.")), []).
Proof.
  apply (proj1 (styled_image_validation imageEndpoint
                  (js "Make it a watercolor.") [] None [])).
  reflexivity.
Defined.

(** X5. When all images decode, the request [generateStyledImage] sends
    holds their image parts in the order given, followed by one text part
    with the prompt and, where present, the regeneration instructions. *)
Theorem styled_image_sends_images_in_order (endpoint : Endpoint)
  (prompt : jsstring) (imageDataUrls : list jsstring)
  (decoded : list (jsstring * jsstring))
  (additionalInstructions : option jsstring) (w : World) :
  imageDataUrls <> [] ->
  Forall2 (fun u md => decode u = Some md) imageDataUrls decoded ->
  exists r rest,
    generateStyledImage endpoint prompt imageDataUrls additionalInstructions w
    = (r, w ++ [EvCall (((fun md => {| text := None;
                                       inlineData := Some {| mimeType := Some md.1;
                                                             data := Some md.2 |} |})
                                    <$> decoded)
                        ++ [textPartOf (withInstructions prompt
                                          additionalInstructions)])]
          ++ rest).
Proof.
  intros Hne Hall. unfold generateStyledImage.
  destruct imageDataUrls as [|u0 urls]; [done|]. cbn [length Nat.eqb].
  unfold bind, lift. rewrite (map_result_decode_ok _ _ Hall).
  apply requestImage_first_call.
Qed.

Lemma styled_image_sends_images_in_order_witness :
  exists r rest,
    generateStyledImage imageEndpoint (js "Blend them.") [pngUrl; jpegUrl]
      (Some (js "warmer")) []
    = (r, [] ++ [EvCall (((fun md => {| text := None;
                                        inlineData := Some {| mimeType := Some md.1;
                                                              data := Some md.2 |} |})
                          <$> [(js "image/png", js "iVBORw0KGgo=");
                               (js "image/jpeg", js "/9j/4AAQ")])
                         ++ [textPartOf (withInstructions (js "Blend them.")
                                           (Some (js "warmer")))])]
           ++ rest).
Proof.
  apply styled_image_sends_images_in_order.
  - discriminate.
  - repeat constructor.
Defined.

(** X6. Whatever goes wrong, [generateStyledImage] throws an [Error]
    object, never another value, and its message is one of three kinds: an
    image is required (the list was empty), the format error (an image does
    not decode), or the operation's own sentence followed by the detail of
    what the transport or the resolver reported, this last kind only after
    a request went out. *)
Theorem styled_image_failures (endpoint : Endpoint) (prompt : jsstring)
  (imageDataUrls : list jsstring) (additionalInstructions : option jsstring)
  (w : World) (e : Thrown) :
  fst (generateStyledImage endpoint prompt imageDataUrls additionalInstructions w)
  = Throw e ->
  exists message,
    e = JsError message /\
    ((message = js "At least one image data URL is required." /\
      imageDataUrls = []) \/
     (message = invalidFormatMessage /\
      exists u, u ∈ imageDataUrls /\ decode u = None) \/
     (exists detail,
         message = js "The AI model failed to generate an image."
                   ++ js " Details: " ++ detail /\
         snd (generateStyledImage endpoint prompt imageDataUrls
                additionalInstructions w) <> w)).
Proof.
  unfold generateStyledImage.
  destruct imageDataUrls as [|u0 urls].
  { intros [= <-]. eexists. split; [done|]. by left. }
  cbn [length Nat.eqb]. unfold bind, lift.
  destruct (decode_all_or_some (u0 :: urls)) as [[decoded Hall]|(u & Hin & Hu)].
  - rewrite (map_result_decode_ok _ _ Hall). intros Hfail.
    destruct (requestImage_failure _ _ _ _ _ Hfail) as [detail ->].
    eexists. split; [done|]. right. right. exists detail. split; [done|].
    destruct (requestImage_first_call endpoint
                (js "The AI model failed to generate an image.")
                (((fun md => imagePartOf md.1 md.2) <$> decoded)
                 ++ [textPartOf (withInstructions prompt additionalInstructions)])
                w) as (r & rest & ->).
    cbn [snd]. apply app_cons_not_self.
  - rewrite (map_result_decode_rejects _ u Hin Hu). intros [= <-].
    eexists. split; [done|]. right. left. eauto.
Qed.

Lemma styled_image_failures_witness :
  exists message,
    JsError (js "The AI model failed to generate an image. Details: 429 RESOURCE_EXHAUSTED: quota exceeded")
    = JsError message /\
    ((message = js "At least one image data URL is required." /\
      [pngUrl] = []) \/
     (message = invalidFormatMessage /\
      exists u, u ∈ [pngUrl] /\ decode u = None) \/
     (exists detail,
         message = js "The AI model failed to generate an image."
                   ++ js " Details: " ++ detail /\
         snd (generateStyledImage quotaEndpoint (js "Sepia.") [pngUrl] None [])
         <> [])).
Proof.
  apply (styled_image_failures quotaEndpoint (js "Sepia.") [pngUrl] None []).
  reflexivity.
Defined.

(** X7. An answer without an image is not retried: when the first answer
    of the endpoint holds no inline image, [generateStyledImage] has sent a
    single request and throws the operation's sentence followed by the
    resolver's message, which quotes the answer's text or the placeholder. *)
Theorem text_answer_is_not_retried (endpoint : Endpoint) (prompt : jsstring)
  (imageDataUrls : list jsstring) (decoded : list (jsstring * jsstring))
  (additionalInstructions : option jsstring) (w : World)
  (response : GenerateContentResponse) :
  let allParts :=
    ((fun md => imagePartOf md.1 md.2) <$> decoded)
    ++ [textPartOf (withInstructions prompt additionalInstructions)] in
  imageDataUrls <> [] ->
  Forall2 (fun u md => decode u = Some md) imageDataUrls decoded ->
  endpoint (call_count w) allParts = Ok response ->
  (forall ps, firstCandidateParts response = Some ps ->
              Forall (fun p => inlineData p = None) ps) ->
  generateStyledImage endpoint prompt imageDataUrls additionalInstructions w
  = (Throw (JsError
       (js "The AI model failed to generate an image." ++ js " Details: "
        ++ js "The AI model responded with text instead of an image: "
        ++ dq ++ textOrPlaceholder (response_text response) ++ dq)),
     w ++ [EvCall allParts]).
Proof.
  intros allParts Hne Hall Hans Hno. unfold generateStyledImage.
  destruct imageDataUrls as [|u0 urls]; [done|]. cbn [length Nat.eqb].
  unfold bind, lift. rewrite (map_result_decode_ok _ _ Hall).
  fold allParts. rewrite requestImage_cases.
  rewrite callImageModelWithRetry_attempts, attemptsFrom_cons, Hans.
  by rewrite (processGeminiResponse_no_image _ Hno).
Qed.

Lemma text_answer_is_not_retried_witness :
  generateStyledImage proseEndpoint (js "Sepia.") [pngUrl] None []
  = (Throw (JsError
       (js "The AI model failed to generate an image." ++ js " Details: "
        ++ js "The AI model responded with text instead of an image: "
        ++ dq ++ textOrPlaceholder (response_text proseResponse) ++ dq)),
     [] ++ [EvCall (((fun md => imagePartOf md.1 md.2)
                     <$> [(js "image/png", js "iVBORw0KGgo=")])
                    ++ [textPartOf (withInstructions (js "Sepia.") None)])]).
Proof.
  apply (text_answer_is_not_retried proseEndpoint (js "Sepia.") [pngUrl]
           [(js "image/png", js "iVBORw0KGgo=")] None [] proseResponse).
  - discriminate.
  - repeat constructor.
  - reflexivity.
  - intros ps [= <-]. repeat constructor.
Defined.

(** X8. Regeneration instructions that are absent or consist of white
    space only leave the prompt of an operation as it is; any other
    instructions are appended after the heading exactly as typed, leading
    and trailing white space included. *)
Theorem instructions_blank_or_verbatim (promptText : jsstring)
  (additionalInstructions : option jsstring) :
  (additionalInstructions = None \/
   (exists s, additionalInstructions = Some s /\
              Forall (fun c => is_js_space c = true) s) ->
   withInstructions promptText additionalInstructions = promptText) /\
  (forall s,
      additionalInstructions = Some s ->
      Exists (fun c => is_js_space c = false) s ->
      withInstructions promptText additionalInstructions
      = promptText ++ nl ++ nl ++ js "**REGENERATION INSTRUCTIONS:**" ++ nl ++ s).
Proof.
  destruct (withInstructions_NonBlank promptText additionalInstructions)
    as [Hyes Hno].
  split.
  - intros Hblank. apply Hno. intros (s & Hs & Htrim).
    destruct Hblank as [Hnone|(s' & Hs' & Hall)]; [congruence|].
    assert (s' = s) as -> by congruence. by apply Htrim, trim_nil.
  - intros s Hs Hex. rewrite Hyes.
    + unfold regenerationBlock. by rewrite Hs.
    + exists s. split; [done|]. rewrite trim_nil. intros Hall.
      apply Exists_exists in Hex as (c & Hc & Hspace).
      rewrite Forall_forall in Hall. specialize (Hall c Hc). congruence.
Qed.

Lemma instructions_blank_or_verbatim_witness :
  withInstructions (js "Sepia.") (Some (js "  "))  = js "Sepia." /\
  withInstructions (js "Sepia.") (Some (js " more grain "))
  = js "Sepia." ++ nl ++ nl ++ js "**REGENERATION INSTRUCTIONS:**" ++ nl
    ++ js " more grain ".
Proof.
  split.
  - apply (proj1 (instructions_blank_or_verbatim (js "Sepia.") (Some (js "  ")))).
    right. exists (js "  "). split; [reflexivity | repeat constructor].
  - apply (proj2 (instructions_blank_or_verbatim (js "Sepia.")
                    (Some (js " more grain "))) (js " more grain "));
      [reflexivity|].
    apply Exists_cons_tl, Exists_cons_hd. reflexivity.
Defined.

(** X9. Each single-image operation checks its image first: when the data
    URL does not decode, the operation throws the format error, without
    the operation's own sentence around it, and no request is sent. *)
Theorem single_image_operations_reject_malformed_input (endpoint : Endpoint)
  (imageDataUrl prompt : jsstring) (additionalInstructions : option jsstring)
  (count : Z) (w : World) :
  decode imageDataUrl = None ->
  extractOutfitFromImage endpoint imageDataUrl additionalInstructions w
  = (Throw (JsError invalidFormatMessage), w) /\
  fillMaskedImage endpoint prompt imageDataUrl additionalInstructions w
  = (Throw (JsError invalidFormatMessage), w) /\
  removeObjectFromImage endpoint imageDataUrl w
  = (Throw (JsError invalidFormatMessage), w) /\
  generateBackgroundFromConcept endpoint imageDataUrl w
  = (Throw (JsError invalidFormatMessage), w) /\
  generateCloneEffectImage endpoint imageDataUrl additionalInstructions w
  = (Throw (JsError invalidFormatMessage), w) /\
  generatePhotoBoothImage endpoint imageDataUrl count w
  = (Throw (JsError invalidFormatMessage), w).
Proof.
  unfold decode. intros Hnone.
  unfold extractOutfitFromImage, fillMaskedImage, removeObjectFromImage,
    generateBackgroundFromConcept, generateCloneEffectImage,
    generatePhotoBoothImage, photoBoothParts, bind, lift.
  by rewrite Hnone.
Qed.

Lemma single_image_operations_reject_malformed_input_witness :
  extractOutfitFromImage imageEndpoint (js "photo.png") None []
  = (Throw (JsError invalidFormatMessage), []) /\
  fillMaskedImage imageEndpoint (js "a red hat") (js "photo.png") None []
  = (Throw (JsError invalidFormatMessage), []) /\
  removeObjectFromImage imageEndpoint (js "photo.png") []
  = (Throw (JsError invalidFormatMessage), []) /\
  generateBackgroundFromConcept imageEndpoint (js "photo.png") []
  = (Throw (JsError invalidFormatMessage), []) /\
  generateCloneEffectImage imageEndpoint (js "photo.png") None []
  = (Throw (JsError invalidFormatMessage), []) /\
  generatePhotoBoothImage imageEndpoint (js "photo.png") 4 []
  = (Throw (JsError invalidFormatMessage), []).
Proof.
  apply (single_image_operations_reject_malformed_input imageEndpoint
           (js "photo.png") (js "a red hat") None 4 []).
  reflexivity.
Defined.

(** X10. Each single-image operation whose image decodes sends exactly two
    parts, the image part and then one text part: the operation's template,
    followed by the regeneration instructions where the operation takes
    them.  Object removal and background generation send their fixed
    template; the fill's template ends with the user's prompt, as typed,
    between double quotes. *)
Theorem single_image_operations_send_image_then_prompt (endpoint : Endpoint)
  (imageDataUrl m d prompt : jsstring) (additionalInstructions : option jsstring)
  (w : World) :
  decode imageDataUrl = Some (m, d) ->
  (exists r rest,
      extractOutfitFromImage endpoint imageDataUrl additionalInstructions w
      = (r, w ++ [EvCall [{| text := None;
                             inlineData := Some {| mimeType := Some m;
                                                   data := Some d |} |};
                          textPartOf (withInstructions extractOutfitPrompt
                                        additionalInstructions)]] ++ rest)) /\
  (exists r rest,
      fillMaskedImage endpoint prompt imageDataUrl additionalInstructions w
      = (r, w ++ [EvCall [{| text := None;
                             inlineData := Some {| mimeType := Some m;
                                                   data := Some d |} |};
                          textPartOf (withInstructions (fillMaskedPrompt prompt)
                                        additionalInstructions)]] ++ rest)) /\
  (exists lead, forall userPrompt,
      fillMaskedPrompt userPrompt
      = lead ++ js "**PROMPT:** " ++ dq ++ userPrompt ++ dq) /\
  (exists r rest,
      removeObjectFromImage endpoint imageDataUrl w
      = (r, w ++ [EvCall [{| text := None;
                             inlineData := Some {| mimeType := Some m;
                                                   data := Some d |} |};
                          textPartOf removeObjectPrompt]]
            ++ rest)) /\
  (exists r rest,
      generateBackgroundFromConcept endpoint imageDataUrl w
      = (r, w ++ [EvCall [{| text := None;
                             inlineData := Some {| mimeType := Some m;
                                                   data := Some d |} |};
                          textPartOf backgroundFromConceptPrompt]] ++ rest)) /\
  (exists r rest,
      generateCloneEffectImage endpoint imageDataUrl additionalInstructions w
      = (r, w ++ [EvCall [{| text := None;
                             inlineData := Some {| mimeType := Some m;
                                                   data := Some d |} |};
                          textPartOf (withInstructions cloneEffectPrompt
                                        additionalInstructions)]] ++ rest)).
Proof.
  unfold decode. intros Hdec.
  unfold extractOutfitFromImage, fillMaskedImage, removeObjectFromImage,
    generateBackgroundFromConcept, generateCloneEffectImage.
  rewrite Hdec.
  repeat split; try apply requestImage_first_call.
  exists (take (length (fillMaskedPrompt []) - 14) (fillMaskedPrompt [])).
  intros userPrompt. reflexivity.
Qed.

Lemma single_image_operations_send_image_then_prompt_witness :
  exists r rest,
    removeObjectFromImage imageEndpoint pngUrl []
    = (r, [] ++ [EvCall [{| text := None;
                            inlineData := Some {| mimeType := Some (js "image/png");
                                                  data := Some (js "iVBORw0KGgo=") |} |};
                         textPartOf removeObjectPrompt]] ++ rest).
Proof.
  apply (proj1 (proj2 (proj2 (proj2
           (single_image_operations_send_image_then_prompt imageEndpoint pngUrl
              (js "image/png") (js "iVBORw0KGgo=") (js "a red hat") None []
              eq_refl))))).
Defined.

(** X11. The face swap checks the receiving image before the face source:
    when the receiving image does not decode the error names the source
    image, whatever the face source is; when only the face source does not
    decode the error names the face source.  In both cases no request is
    sent and the error carries no operation sentence. *)
Theorem face_swap_validation_order (endpoint : Endpoint)
  (sourceImageDataUrl targetFaceDataUrl : jsstring) (_unused : JsAny)
  (additionalInstructions : option jsstring) (w : World) :
  (decode sourceImageDataUrl = None ->
   swapFacesInImage endpoint sourceImageDataUrl targetFaceDataUrl _unused
     additionalInstructions w
   = (Throw (JsError (js "Invalid source image data URL format.")), w)) /\
  (forall md,
      decode sourceImageDataUrl = Some md ->
      decode targetFaceDataUrl = None ->
      swapFacesInImage endpoint sourceImageDataUrl targetFaceDataUrl _unused
        additionalInstructions w
      = (Throw (JsError (js "Invalid face source data URL format.")), w)).
Proof.
  unfold decode, swapFacesInImage, swapFacesParts, bind, lift. split.
  - by intros ->.
  - intros [m d] -> ->. done.
Qed.

Lemma face_swap_validation_order_witness :
  swapFacesInImage imageEndpoint (js "a.png") (js "b.png") JsUndefined None []
  = (Throw (JsError (js "Invalid source image data URL format.")), []) /\
  swapFacesInImage imageEndpoint pngUrl (js "b.png") JsUndefined None []
  = (Throw (JsError (js "Invalid face source data URL format.")), []).
Proof.
  split.
  - apply (proj1 (face_swap_validation_order imageEndpoint (js "a.png")
                    (js "b.png") JsUndefined None [])).
    reflexivity.
  - apply (proj2 (face_swap_validation_order imageEndpoint pngUrl
                    (js "b.png") JsUndefined None [])
             (js "image/png", js "iVBORw0KGgo=")); reflexivity.
Defined.

(** X12. Background removal at a point draws its marker first.  When the
    image does not load, or the canvas gives no context, the operation
    throws that failure as it is and sends nothing; when the canvas text is
    not an image data URL, it throws that the data URL is invalid after
    drawing the marker and sends nothing.  Otherwise the request holds the
    image with the marker, as the canvas gave it, and the fixed template;
    the data URL passed in is not itself matched against the pattern. *)
Theorem marker_precedes_request {Coord : Type} (endpoint : Endpoint)
  (browser : Browser Coord) (imageDataUrl : jsstring) (x y : Coord) (w : World) :
  (loadImage browser imageDataUrl = None ->
   removeBackgroundFromImageAtPoint endpoint browser imageDataUrl x y w
   = (Throw (JsError (js "Failed to load image for drawing marker.")), w)) /\
  (forall width height,
      loadImage browser imageDataUrl = Some (width, height) ->
      getContext2d browser width height = false ->
      removeBackgroundFromImageAtPoint endpoint browser imageDataUrl x y w
      = (Throw (JsError (js "Could not get canvas context")), w)) /\
  (forall width height,
      loadImage browser imageDataUrl = Some (width, height) ->
      getContext2d browser width height = true ->
      decode (toDataURL browser imageDataUrl width height x y) = None ->
      removeBackgroundFromImageAtPoint endpoint browser imageDataUrl x y w
      = (Throw (JsError (js "Invalid image data URL after drawing marker.")), w)) /\
  (forall width height m d,
      loadImage browser imageDataUrl = Some (width, height) ->
      getContext2d browser width height = true ->
      decode (toDataURL browser imageDataUrl width height x y) = Some (m, d) ->
      exists r rest,
        removeBackgroundFromImageAtPoint endpoint browser imageDataUrl x y w
        = (r, w ++ [EvCall [{| text := None;
                               inlineData := Some {| mimeType := Some m;
                                                     data := Some d |} |};
                            textPartOf removeBackgroundPrompt]]
              ++ rest)).
Proof.
  unfold decode, removeBackgroundFromImageAtPoint, drawMarkerOnImage, bind, lift.
  split; [|split; [|split]].
  - by intros ->.
  - intros width height -> ->. done.
  - intros width height -> -> ->. done.
  - intros width height m d -> -> ->. apply requestImage_first_call.
Qed.

Lemma marker_precedes_request_witness :
  removeBackgroundFromImageAtPoint imageEndpoint sampleBrowser jpegUrl 10 20 []
  = (Throw (JsError (js "Failed to load image for drawing marker.")), []) /\
  removeBackgroundFromImageAtPoint imageEndpoint emptyCanvasBrowser pngUrl 10 20 []
  = (Throw (JsError (js "Invalid image data URL after drawing marker.")), []) /\
  exists r rest,
    removeBackgroundFromImageAtPoint imageEndpoint sampleBrowser pngUrl 10 20 []
    = (r, [] ++ [EvCall [{| text := None;
                            inlineData := Some {| mimeType := Some (js "image/png");
                                                  data := Some (js "TUFSS0VE") |} |};
                         textPartOf removeBackgroundPrompt]] ++ rest).
Proof.
  split; [|split].
  - apply (proj1 (marker_precedes_request imageEndpoint sampleBrowser jpegUrl
                    10 20 [])).
    reflexivity.
  - apply (proj1 (proj2 (proj2 (marker_precedes_request imageEndpoint
                                  emptyCanvasBrowser pngUrl 10 20 [])))
             0 0); reflexivity.
  - apply (proj2 (proj2 (proj2 (marker_precedes_request imageEndpoint
                                  sampleBrowser pngUrl 10 20 [])))
             640 480 (js "image/png") (js "TUFSS0VE")); reflexivity.
Defined.

(** ** More on the worker pool *)

Lemma initial_cells_lookup (l : list PromptItem)
  (m : gmap jsstring GeneratedImage) (k : jsstring) :
  foldl (fun acc p =>
           <[p_id p := {| g_id := p_id p; status := pending;
                          url := None; g_error := None |}]> acc) m l !! k
  = if decide (k ∈ p_id <$> l) then Some (pendingCell k) else m !! k.
Proof.
  revert m. induction l as [|a l IH]; intros m; simpl.
  - destruct (decide (k ∈ [])) as [H|_]; [by inversion H | done].
  - rewrite IH. destruct (decide (k ∈ p_id <$> l)) as [Hin|Hnin].
    + rewrite decide_True; [done | by right].
    + destruct (decide (k = p_id a)) as [->|Hne].
      * rewrite decide_True by (by left). by rewrite lookup_insert_eq.
      * rewrite decide_False.
        -- by rewrite lookup_insert_ne.
        -- intros H. apply elem_of_cons in H as [H|H]; done.
Qed.

Lemma initialImages_lookup (promptsToUse : list PromptItem) (k : jsstring) :
  initialImages promptsToUse !! k
  = if decide (k ∈ p_id <$> promptsToUse) then Some (pendingCell k) else None.
Proof. unfold initialImages. by rewrite initial_cells_lookup, lookup_empty. Qed.

Lemma awaited_cons (w : Worker) (ws : list Worker) :
  omap (fun w => match w with Awaiting p => Some p | Finished => None end)
       (w :: ws)
  = match w with
    | Awaiting p =>
        p :: omap (fun w => match w with Awaiting p => Some p | Finished => None end)
               ws
    | Finished =>
        omap (fun w => match w with Awaiting p => Some p | Finished => None end) ws
    end.
Proof. by destruct w. Qed.

Lemma startWorkers_take_drop (n : nat) (q : list PromptItem) :
  omap (fun w => match w with Awaiting p => Some p | Finished => None end)
       (startWorkers n q).1 = take n q /\
  (startWorkers n q).2 = drop n q /\
  length (startWorkers n q).1 = n.
Proof.
  revert q. induction n as [|n IH]; intros q; [by destruct q|].
  cbn [startWorkers]. destruct q as [|p0 rest]; cbn [workerLoop].
  - destruct (IH []) as (Ht & Hd & Hl).
    destruct (startWorkers n []) as [ws q'']. cbn [fst snd] in *.
    rewrite awaited_cons, Ht, Hd. cbn [length]. rewrite Hl.
    by rewrite take_nil, drop_nil.
  - destruct (IH rest) as (Ht & Hd & Hl).
    destruct (startWorkers n rest) as [ws q'']. cbn [fst snd] in *.
    rewrite awaited_cons, Ht, Hd. cbn [length]. by rewrite Hl.
Qed.

(** X13. A batch starts with the first three items of the list in flight,
    in their order, and the others queued behind them in their order; with
    fewer than three items all are in flight.  Every item has its cell,
    which says pending, and there is no other cell. *)
Theorem batch_start (promptsToUse : list PromptItem) :
  inFlight (startBatch promptsToUse) = take 3 promptsToUse /\
  queue (startBatch promptsToUse) = drop 3 promptsToUse /\
  length (workers (startBatch promptsToUse)) = 3%nat /\
  forall k,
    generatedImages (startBatch promptsToUse) !! k
    = if decide (k ∈ p_id <$> promptsToUse)
      then Some {| g_id := k; status := pending; url := None; g_error := None |}
      else None.
Proof.
  unfold startBatch, inFlight.
  destruct (startWorkers_take_drop concurrencyLimit promptsToUse)
    as (Ht & Hd & Hl).
  destruct (startWorkers concurrencyLimit promptsToUse) as [ws q].
  cbn [queue workers generatedImages fst snd] in *.
  split; [exact Ht|]. split; [exact Hd|]. split; [exact Hl|].
  intros k. apply initialImages_lookup.
Qed.

(** The shape a pool keeps, whatever the items are. *)
Lemma startBatch_shape (promptsToUse : list PromptItem) :
  length (workers (startBatch promptsToUse)) = concurrencyLimit /\
  (Finished ∈ workers (startBatch promptsToUse) ->
   queue (startBatch promptsToUse) = []).
Proof.
  unfold startBatch.
  destruct (startWorkers concurrencyLimit promptsToUse) as [ws q] eqn:Hs.
  destruct (startWorkers_spec _ _ _ _ Hs) as (Hlen & _ & Hfin). by split.
Qed.

Lemma settle_shape (operation : jsstring -> list jsstring -> Result jsstring)
  (resizedImage : jsstring) (st : Pool) (i : nat) :
  length (workers st) = concurrencyLimit /\
  (Finished ∈ workers st -> queue st = []) ->
  length (workers (settle operation resizedImage st i)) = concurrencyLimit /\
  (Finished ∈ workers (settle operation resizedImage st i) ->
   queue (settle operation resizedImage st i) = []).
Proof.
  intros [Hlen Hdrain]. unfold settle.
  destruct (workers st !! i) as [[job|]|] eqn:Hi; [|done..].
  destruct (queue st) as [|p0 rest] eqn:Hq; cbn [workerLoop queue workers].
  - by rewrite length_insert.
  - rewrite length_insert. split; [done|]. intros H.
    apply elem_of_insert_inv in H as [H|H]; [done|]. by apply Hdrain in H.
Qed.

Lemma runSchedule_shape (operation : jsstring -> list jsstring -> Result jsstring)
  (resizedImage : jsstring) (st : Pool) (schedule : list nat) :
  length (workers st) = concurrencyLimit /\
  (Finished ∈ workers st -> queue st = []) ->
  length (workers (runSchedule operation resizedImage st schedule))
  = concurrencyLimit /\
  (Finished ∈ workers (runSchedule operation resizedImage st schedule) ->
   queue (runSchedule operation resizedImage st schedule) = []).
Proof.
  revert st. induction schedule as [|i schedule IH]; intros st Hst; [done|].
  apply IH. by apply settle_shape.
Qed.

Lemma awaited_length (ws : list Worker) :
  length (omap (fun w => match w with Awaiting p => Some p | Finished => None end)
               ws)
  = length (List.filter is_awaiting ws).
Proof.
  induction ws as [|[p|] ws IH]; [done|..]; rewrite awaited_cons; simpl;
    by rewrite IH.
Qed.

Lemma awaited_all (ws : list Worker) :
  Finished ∉ ws ->
  length (omap (fun w => match w with Awaiting p => Some p | Finished => None end)
               ws)
  = length ws.
Proof.
  induction ws as [|[p|] ws IH]; intros Hno.
  - done.
  - rewrite awaited_cons. cbn [length]. rewrite IH; [done|].
    intros H. apply Hno. by right.
  - destruct Hno. by left.
Qed.

(** X14. While a batch runs, in whatever order the requests settle, at most
    three requests are in flight; and as long as an item is queued exactly
    three are, that is, no worker idles while work is left. *)
Theorem three_in_flight (operation : jsstring -> list jsstring -> Result jsstring)
  (resizedImage : jsstring) (promptsToUse : list PromptItem)
  (schedule : list nat) :
  let st := runSchedule operation resizedImage (startBatch promptsToUse) schedule in
  (length (inFlight st) <= 3)%nat /\
  (queue st = [] \/ length (inFlight st) = 3%nat).
Proof.
  intros st.
  destruct (runSchedule_shape operation resizedImage (startBatch promptsToUse)
              schedule (startBatch_shape promptsToUse)) as [Hlen Hdrain].
  fold st in Hlen, Hdrain. unfold inFlight. split.
  - rewrite awaited_length. change 3%nat with concurrencyLimit.
    rewrite <- Hlen. apply List.filter_length_le.
  - destruct (decide (Finished ∈ workers st)) as [Hfin|Hno].
    + left. by apply Hdrain.
    + right. by rewrite awaited_all.
Qed.

Lemma awaited_insert_finished (ws : list Worker) (i : nat) (j : PromptItem) :
  ws !! i = Some (Awaiting j) ->
  omap (fun w => match w with Awaiting p => Some p | Finished => None end) ws
  ≡ₚ j :: omap (fun w => match w with Awaiting p => Some p | Finished => None end)
            (<[i:=Finished]> ws).
Proof.
  revert i. induction ws as [|w ws IH]; intros [|i] Hi; try done.
  - injection Hi as ->. by rewrite !awaited_cons.
  - cbn [insert list_insert]. rewrite !awaited_cons.
    specialize (IH i Hi). destruct w as [p|]; [|done].
    rewrite IH. apply Permutation_swap.
Qed.

Lemma awaited_insert_awaiting (ws : list Worker) (i : nat) (p0 : PromptItem) :
  (i < length ws)%nat ->
  omap (fun w => match w with Awaiting p => Some p | Finished => None end)
       (<[i:=Awaiting p0]> ws)
  ≡ₚ p0 :: omap (fun w => match w with Awaiting p => Some p | Finished => None end)
             (<[i:=Finished]> ws).
Proof.
  revert i. induction ws as [|w ws IH]; intros [|i] Hi; simpl in Hi; try lia.
  - cbn [insert list_insert]. by rewrite !awaited_cons.
  - cbn [insert list_insert]. rewrite !awaited_cons.
    specialize (IH i ltac:(lia)). destruct w as [p|]; [|done].
    rewrite IH. apply Permutation_swap.
Qed.

(** Settling a request takes its item out of the items still waiting, in
    flight or queued, and moves nothing else. *)
Lemma settle_waiting (operation : jsstring -> list jsstring -> Result jsstring)
  (resizedImage : jsstring) (st : Pool) (i : nat) (j : PromptItem) :
  workers st !! i = Some (Awaiting j) ->
  inFlight st ++ queue st
  ≡ₚ j :: (inFlight (settle operation resizedImage st i)
           ++ queue (settle operation resizedImage st i)).
Proof.
  intros Hi. unfold settle, inFlight. rewrite Hi.
  destruct (queue st) as [|p0 rest]; cbn [workerLoop queue workers].
  - rewrite !app_nil_r. by apply awaited_insert_finished.
  - rewrite (awaited_insert_finished _ _ _ Hi).
    rewrite (awaited_insert_awaiting _ i p0) by (by apply lookup_lt_Some in Hi).
    cbn [app]. apply Permutation_skip.
    symmetry. apply Permutation_middle.
Qed.

Lemma startBatch_waiting (promptsToUse : list PromptItem) :
  inFlight (startBatch promptsToUse) ++ queue (startBatch promptsToUse)
  = promptsToUse.
Proof.
  unfold startBatch, inFlight.
  destruct (startWorkers_take_drop concurrencyLimit promptsToUse)
    as (Ht & Hd & _).
  destruct (startWorkers concurrencyLimit promptsToUse) as [ws q].
  cbn [queue workers fst snd] in *. rewrite Ht, Hd. apply take_drop.
Qed.

Lemma startBatch_cell (promptsToUse : list PromptItem) (k : jsstring) :
  generatedImages (startBatch promptsToUse) !! k
  = if decide (k ∈ p_id <$> promptsToUse) then Some (pendingCell k) else None.
Proof.
  unfold startBatch.
  destruct (startWorkers concurrencyLimit promptsToUse) as [ws q].
  apply initialImages_lookup.
Qed.

Section CellsOfARunningBatch.

Context (operation : jsstring -> list jsstring -> Result jsstring).
Context (resizedImage : jsstring).
Context (promptsToUse : list PromptItem).
Context (Hids : NoDup (p_id <$> promptsToUse)).

Lemma startBatch_cells :
  cellsInv operation resizedImage promptsToUse (startBatch promptsToUse).
Proof.
  unfold cellsInv. rewrite startBatch_waiting.
  split; [by eapply NoDup_fmap_1|]. split; [done|].
  intros p Hp. left. split; [done|]. rewrite startBatch_cell.
  rewrite decide_True; [done|]. by apply list_elem_of_fmap_2.
Qed.

Lemma settle_cells (st : Pool) (i : nat) :
  cellsInv operation resizedImage promptsToUse st ->
  cellsInv operation resizedImage promptsToUse
    (settle operation resizedImage st i).
Proof.
  intros (Hnd & Hsub & Hcells).
  destruct (workers st !! i) as [[j|]|] eqn:Hi;
    [| unfold settle; by rewrite Hi ..].
  pose proof (settle_waiting operation resizedImage st i j Hi) as Hperm.
  assert (Hcell : generatedImages (settle operation resizedImage st i)
                  = <[p_id j := settledCell operation resizedImage j]>
                      (generatedImages st)).
  { unfold settle. rewrite Hi, processSinglePrompt_cell.
    by destruct (workerLoop (queue st)). }
  unfold cellsInv. rewrite Hcell.
  set (waiting' := inFlight (settle operation resizedImage st i)
                   ++ queue (settle operation resizedImage st i)) in *.
  rewrite Hperm in Hnd. apply NoDup_cons in Hnd as [Hj Hnd'].
  assert (Hjin : j ∈ promptsToUse) by (apply Hsub; rewrite Hperm; by left).
  split; [exact Hnd'|]. split.
  - intros p Hp. apply Hsub. rewrite Hperm. by right.
  - intros p Hp.
    destruct (decide (p = j)) as [->|Hne].
    + right. split; [exact Hj|]. apply lookup_insert_eq.
    + assert (p_id j <> p_id p) as Hid.
      { intros Hid. apply Hne. symmetry.
        by apply (NoDup_ids_inj promptsToUse). }
      rewrite lookup_insert_ne by done.
      destruct (Hcells p Hp) as [[Hw Hc]|[Hw Hc]].
      * left. split; [|done]. rewrite Hperm in Hw.
        apply elem_of_cons in Hw as [Hw|Hw]; done.
      * right. split; [|done]. intros Hw'. apply Hw.
        rewrite Hperm. by right.
Qed.

Lemma runSchedule_cells (st : Pool) (schedule : list nat) :
  cellsInv operation resizedImage promptsToUse st ->
  cellsInv operation resizedImage promptsToUse
    (runSchedule operation resizedImage st schedule).
Proof.
  revert st. induction schedule as [|i schedule IH]; intros st Hst; [done|].
  apply IH. by apply settle_cells.
Qed.

End CellsOfARunningBatch.

(** X15. In a batch over items with distinct ids, at every moment and in
    whatever order the requests settle, each item is in one of two states:
    it is still queued or in flight and its cell says pending, or it is
    neither and its cell holds the outcome of its own operation.  An item
    is never queued or in flight twice. *)
Theorem cells_pending_until_settled
  (operation : jsstring -> list jsstring -> Result jsstring)
  (resizedImage : jsstring) (promptsToUse : list PromptItem)
  (schedule : list nat) :
  NoDup (p_id <$> promptsToUse) ->
  let st := runSchedule operation resizedImage (startBatch promptsToUse) schedule in
  NoDup (inFlight st ++ queue st) /\
  forall p, p ∈ promptsToUse ->
    ((p ∈ inFlight st ++ queue st) /\
     generatedImages st !! p_id p
     = Some {| g_id := p_id p; status := pending; url := None; g_error := None |})
    \/
    ((p ∉ inFlight st ++ queue st) /\
     generatedImages st !! p_id p
     = Some (settledCell operation resizedImage p)).
Proof.
  intros Hids st.
  destruct (runSchedule_cells operation resizedImage promptsToUse Hids
              (startBatch promptsToUse) schedule
              (startBatch_cells operation resizedImage promptsToUse Hids))
    as (Hnd & _ & Hcells).
  split; [exact Hnd | exact Hcells].
Qed.

Lemma cells_pending_until_settled_witness :
  let st := runSchedule pickyOperation pngUrl (startBatch fivePrompts) [2; 0]%nat in
  NoDup (inFlight st ++ queue st) /\
  forall p, p ∈ fivePrompts ->
    ((p ∈ inFlight st ++ queue st) /\
     generatedImages st !! p_id p
     = Some {| g_id := p_id p; status := pending; url := None; g_error := None |})
    \/
    ((p ∉ inFlight st ++ queue st) /\
     generatedImages st !! p_id p = Some (settledCell pickyOperation pngUrl p)).
Proof.
  apply (cells_pending_until_settled pickyOperation pngUrl fivePrompts [2; 0]%nat).
  apply (bool_decide_unpack _). vm_compute. exact I.
Defined.

Lemma outstanding_start (promptsToUse : list PromptItem) :
  outstanding (startBatch promptsToUse) = length promptsToUse.
Proof.
  pose proof (f_equal length (startBatch_waiting promptsToUse)) as H.
  rewrite length_app in H. unfold inFlight in H.
  unfold outstanding. rewrite <- awaited_length, Nat.add_comm. exact H.
Qed.

Lemma settle_outstanding (operation : jsstring -> list jsstring -> Result jsstring)
  (resizedImage : jsstring) (st : Pool) (i : nat) (job : PromptItem) :
  workers st !! i = Some (Awaiting job) ->
  S (outstanding (settle operation resizedImage st i)) = outstanding st.
Proof.
  intros Hi. unfold settle, outstanding. rewrite Hi.
  pose proof (filter_length_insert is_awaiting (workers st) i (Awaiting job))
    as Hcount.
  destruct (queue st) as [|p0 rest]; cbn [workerLoop queue workers length].
  - specialize (Hcount Finished Hi). simpl in *. lia.
  - specialize (Hcount (Awaiting p0) Hi). simpl in *. lia.
Qed.

Lemma settle_outstanding_le (operation : jsstring -> list jsstring -> Result jsstring)
  (resizedImage : jsstring) (st : Pool) (i : nat) :
  (outstanding st <= S (outstanding (settle operation resizedImage st i)))%nat.
Proof.
  destruct (workers st !! i) as [[job|]|] eqn:Hi.
  - rewrite (settle_outstanding _ _ _ _ _ Hi). lia.
  - unfold settle. rewrite Hi. lia.
  - unfold settle. rewrite Hi. lia.
Qed.

Lemma runSchedule_outstanding (operation : jsstring -> list jsstring -> Result jsstring)
  (resizedImage : jsstring) (st : Pool) (schedule : list nat) :
  (outstanding st
   <= outstanding (runSchedule operation resizedImage st schedule)
      + length schedule)%nat.
Proof.
  revert st. induction schedule as [|i schedule IH]; intros st.
  - cbn [runSchedule foldl length]. lia.
  - change (runSchedule operation resizedImage st (i :: schedule))
      with (runSchedule operation resizedImage
              (settle operation resizedImage st i) schedule).
    specialize (IH (settle operation resizedImage st i)).
    pose proof (settle_outstanding_le operation resizedImage st i).
    cbn [length]. lia.
Qed.

Lemma all_finished_no_awaiting (ws : list Worker) :
  Forall (fun w => w = Finished) ws -> List.filter is_awaiting ws = [].
Proof. induction 1 as [|w ws -> _ IH]; [done | exact IH]. Qed.

Lemma completed_outstanding (st : Pool) :
  length (workers st) = concurrencyLimit ->
  (Finished ∈ workers st -> queue st = []) ->
  batchCompleted st = true -> outstanding st = 0%nat.
Proof.
  intros Hlen Hdrain Hdone. rewrite batchCompleted_spec in Hdone.
  unfold outstanding.
  assert (Finished ∈ workers st) as Hfin.
  { destruct (workers st) as [|w ws] eqn:Hws; [done|].
    rewrite (Hdone w) by (by left). by left. }
  rewrite (Hdrain Hfin), all_finished_no_awaiting; [done|].
  by apply Forall_forall.
Qed.

Lemma batch_terminates_exact
  (operation : jsstring -> list jsstring -> Result jsstring)
  (resizedImage : jsstring) (n : nat) (st : Pool) :
  length (workers st) = concurrencyLimit ->
  (Finished ∈ workers st -> queue st = []) ->
  outstanding st = n ->
  exists more,
    length more = n /\
    batchCompleted (runSchedule operation resizedImage st more) = true.
Proof.
  revert st. induction n as [|n IH]; intros st Hlen Hdrain Hn.
  - exists []. split; [done|]. cbn. apply batchCompleted_spec. intros w Hw.
    destruct w as [job|]; [|done].
    unfold outstanding in Hn. apply list_elem_of_In in Hw.
    assert (In (Awaiting job) (List.filter is_awaiting (workers st))) as Hin
        by (by apply List.filter_In).
    destruct (List.filter is_awaiting (workers st)); [done | simpl in Hn; lia].
  - assert (exists i job, workers st !! i = Some (Awaiting job)) as (i & job & Hi).
    { destruct (decide (Forall (fun w => w = Finished) (workers st)))
        as [Hall|Hnot].
      - exfalso. unfold outstanding in Hn.
        rewrite (all_finished_no_awaiting _ Hall) in Hn.
        assert (Finished ∈ workers st) as Hfin.
        { destruct (workers st) as [|w ws]; [done|].
          apply Forall_cons in Hall as [-> _]. by left. }
        rewrite (Hdrain Hfin) in Hn. done.
      - apply not_Forall_Exists in Hnot; [|apply _].
        apply Exists_exists in Hnot as (w & Hw & Hwne).
        apply list_elem_of_lookup in Hw as [i Hi].
        destruct w as [job|]; [eauto | by destruct Hwne]. }
    destruct (settle_shape operation resizedImage st i (conj Hlen Hdrain))
      as [Hlen' Hdrain'].
    destruct (IH (settle operation resizedImage st i) Hlen' Hdrain')
      as (more & Hl & Hm).
    + pose proof (settle_outstanding operation resizedImage st i job Hi). lia.
    + exists (i :: more). split; [simpl; lia | exact Hm].
Qed.

(** X16. A batch of N items is over after exactly N settlements: some order
    of N settlements completes it, and no run of fewer than N steps does,
    so every item gets a request of its own. *)
Theorem batch_takes_one_settlement_per_item
  (operation : jsstring -> list jsstring -> Result jsstring)
  (resizedImage : jsstring) (promptsToUse : list PromptItem) :
  (exists schedule,
      length schedule = length promptsToUse /\
      batchCompleted
        (runSchedule operation resizedImage (startBatch promptsToUse) schedule)
      = true) /\
  (forall schedule,
      batchCompleted
        (runSchedule operation resizedImage (startBatch promptsToUse) schedule)
      = true ->
      (length promptsToUse <= length schedule)%nat).
Proof.
  destruct (startBatch_shape promptsToUse) as [Hlen Hdrain]. split.
  - apply batch_terminates_exact; [done | done | apply outstanding_start].
  - intros schedule Hdone.
    destruct (runSchedule_shape operation resizedImage (startBatch promptsToUse)
                schedule (conj Hlen Hdrain)) as [Hlen' Hdrain'].
    pose proof (completed_outstanding _ Hlen' Hdrain' Hdone) as Hzero.
    pose proof (runSchedule_outstanding operation resizedImage
                  (startBatch promptsToUse) schedule) as Hle.
    rewrite outstanding_start in Hle. lia.
Qed.

Lemma batch_takes_one_settlement_per_item_witness :
  (length fivePrompts <= length [2; 0; 1; 2; 0]%nat)%nat.
Proof.
  apply (proj2 (batch_takes_one_settlement_per_item pickyOperation pngUrl
                  fivePrompts) [2; 0; 1; 2; 0]%nat).
  reflexivity.
Defined.

(** ** The prompt table and regeneration *)

Lemma getPrompts_ids (gender : Gender) :
  p_id <$> getPrompts gender
  = [js "prompt1"; js "prompt2"; js "prompt3"; js "prompt4"; js "prompt5"].
Proof. by destruct gender. Qed.

Lemma getPrompts_NoDup (gender : Gender) : NoDup (p_id <$> getPrompts gender).
Proof.
  rewrite getPrompts_ids. apply (bool_decide_unpack _). vm_compute. exact I.
Qed.

Lemma find_by_id (l : list PromptItem) (promptId : jsstring) :
  match List.find (fun p => js_eqb (p_id p) promptId) l with
  | Some item => item ∈ l /\ p_id item = promptId
  | None => promptId ∉ p_id <$> l
  end.
Proof.
  induction l as [|a l IH]; simpl.
  - by inversion 1.
  - unfold js_eqb at 1. destruct (bool_decide_reflect (p_id a = promptId)) as [Ha|Ha].
    + split; [by left | done].
    + destruct (List.find _ l) as [item|].
      * destruct IH. split; [by right | done].
      * intros H. apply elem_of_cons in H as [H|H]; done.
Qed.

Lemma find_by_id_unique (l : list PromptItem) (p : PromptItem) :
  NoDup (p_id <$> l) -> p ∈ l ->
  List.find (fun q => js_eqb (p_id q) (p_id p)) l = Some p.
Proof.
  intros Hnd Hp. pose proof (find_by_id l (p_id p)) as Hfind.
  destruct (List.find _ l) as [item|].
  - destruct Hfind as [Hin Hid]. f_equal. by apply (NoDup_ids_inj l).
  - destruct Hfind. by apply list_elem_of_fmap_2.
Qed.

(** X17. Regenerating one item leaves every other cell of the record as it
    was.  Without an uploaded image, or for an id that is not in the
    prompt table, nothing changes at all.  Otherwise the item's cell ends
    up holding the outcome of its own operation on the resized image, or
    stays pending when the resize fails. *)
Theorem regenerate_one
  (operation : jsstring -> list jsstring -> Result jsstring)
  (resizeImageToAspectRatio : jsstring -> jsstring -> Result jsstring)
  (uploadedImage : option jsstring) (gender : Gender) (promptId : jsstring)
  (prev : gmap jsstring GeneratedImage) :
  let after :=
    handleRegenerate operation resizeImageToAspectRatio uploadedImage gender
      promptId prev in
  (forall k, k <> promptId -> after !! k = prev !! k) /\
  (truthy uploadedImage = false \/ promptId ∉ p_id <$> getPrompts gender ->
   after = prev) /\
  (forall p image,
      uploadedImage = Some image -> image <> [] ->
      p ∈ getPrompts gender -> p_id p = promptId ->
      (forall resizedImage,
          resizeImageToAspectRatio image (js "9:16") = Ok resizedImage ->
          after !! promptId = Some (settledCell operation resizedImage p)) /\
      (forall e,
          resizeImageToAspectRatio image (js "9:16") = Throw e ->
          after !! promptId
          = Some {| g_id := promptId; status := pending;
                    url := None; g_error := None |})).
Proof.
  intros after. subst after. unfold handleRegenerate.
  pose proof (find_by_id (getPrompts gender) promptId) as Hfind.
  split; [|split].
  - intros k Hk. destruct uploadedImage as [[|c s]|]; try done.
    destruct (List.find _ (getPrompts gender)) as [item|]; [|done].
    destruct Hfind as [_ Hid].
    destruct (resizeImageToAspectRatio (c :: s) (js "9:16")) as [resized|e].
    + rewrite processSinglePrompt_cell, Hid. by rewrite !lookup_insert_ne.
    + by rewrite lookup_insert_ne.
  - intros [Hfalsy|Hunknown].
    + by destruct uploadedImage as [[|c s]|].
    + destruct uploadedImage as [[|c s]|]; try done.
      destruct (List.find _ (getPrompts gender)) as [item|]; [|done].
      destruct Hfind as [Hin Hid]. destruct Hunknown. rewrite <- Hid.
      by apply list_elem_of_fmap_2.
  - intros p image -> Himage Hp <-.
    destruct image as [|c s]; [done|].
    rewrite (find_by_id_unique _ p (getPrompts_NoDup gender) Hp). split.
    + intros resizedImage ->. rewrite processSinglePrompt_cell.
      apply lookup_insert_eq.
    + intros e ->. apply lookup_insert_eq.
Qed.

Lemma regenerate_one_witness :
  handleRegenerate pickyOperation (fun image _ => Ok image) (Some pngUrl) female
    (js "prompt2") ∅ !! js "prompt2"
  = Some (settledCell pickyOperation pngUrl
            (default (mkPromptItem [] []) (getPrompts female !! 1%nat))).
Proof.
  apply (proj1 (proj2 (proj2 (regenerate_one pickyOperation
                                (fun image _ => Ok image) (Some pngUrl) female
                                (js "prompt2") ∅))
                  (default (mkPromptItem [] []) (getPrompts female !! 1%nat))
                  pngUrl eq_refl ltac:(discriminate)
                  ltac:(apply list_elem_of_lookup; exists 1%nat; reflexivity)
                  eq_refl)
           pngUrl).
  reflexivity.
Defined.

(** X18. For either gender the prompt table holds five items with the ids
    prompt1 to prompt5, the first three being the same items for both.  So
    the ids are distinct, and once a batch over the table is over, in
    whatever order its requests settled, each of the five cells holds the
    outcome of its own item's operation. *)
Theorem prompt_table_batch
  (operation : jsstring -> list jsstring -> Result jsstring)
  (resizedImage : jsstring) (gender : Gender) (schedule : list nat) :
  p_id <$> getPrompts gender
  = [js "prompt1"; js "prompt2"; js "prompt3"; js "prompt4"; js "prompt5"] /\
  take 3 (getPrompts gender) = basePrompts /\
  (batchCompleted
     (runSchedule operation resizedImage (startBatch (getPrompts gender)) schedule)
   = true ->
   forall p, p ∈ getPrompts gender ->
     generatedImages
       (runSchedule operation resizedImage (startBatch (getPrompts gender))
          schedule) !! p_id p
     = Some (settledCell operation resizedImage p)).
Proof.
  split; [apply getPrompts_ids|]. split; [by destruct gender|].
  intros Hdone p Hp.
  apply completed_cells with (promptsToUse := getPrompts gender); [|done|done].
  apply runSchedule_inv; [apply getPrompts_NoDup|].
  apply startBatch_inv.
Qed.

Lemma prompt_table_batch_witness :
  generatedImages
    (runSchedule pickyOperation pngUrl (startBatch (getPrompts female))
       [0; 1; 2; 0; 1]%nat)
  !! p_id (default (mkPromptItem [] []) (getPrompts female !! 3%nat))
  = Some (settledCell pickyOperation pngUrl
            (default (mkPromptItem [] []) (getPrompts female !! 3%nat))).
Proof.
  apply (proj2 (proj2 (prompt_table_batch pickyOperation pngUrl female
                         [0; 1; 2; 0; 1]%nat)) eq_refl).
  apply list_elem_of_lookup. exists 3%nat. reflexivity.
Defined.

(** ** PoseAnimator *)

Lemma truthy_Some (v : option jsstring) :
  truthy v = true <-> exists c s, v = Some (c :: s).
Proof.
  destruct v as [[|c s]|]; simpl.
  - split; [done | by intros (c & s & H)].
  - split; eauto.
  - split; [done | by intros (c & s & H)].
Qed.

(** X19. [handleAnimate] does nothing, and sends nothing, when the
    character image or the pose of the selected tab is missing.  Otherwise
    it ends with the spinner off and the result view shown, and with
    exactly one of the two set: the generated image, or the error message;
    the images, the tab and the refinement text are as they were. *)
Theorem pose_animate_outcome (endpoint : Endpoint)
  (instructions : option jsstring) (st : PoseAnimator.State) (w : World) :
  (truthy (PoseAnimator.characterImage st) = false \/
   truthy (PoseAnimator.finalPoseImage st) = false ->
   PoseAnimator.handleAnimate endpoint instructions st w = (st, w)) /\
  (truthy (PoseAnimator.characterImage st) = true ->
   truthy (PoseAnimator.finalPoseImage st) = true ->
   let st' := fst (PoseAnimator.handleAnimate endpoint instructions st w) in
   PoseAnimator.isLoading st' = false /\
   PoseAnimator.view st' = PoseAnimator.result /\
   ((exists resultUrl,
        PoseAnimator.generatedImage st' = Some resultUrl /\
        PoseAnimator.error st' = None) \/
    (exists message,
        PoseAnimator.generatedImage st' = None /\
        PoseAnimator.error st' = Some message)) /\
   PoseAnimator.characterImage st' = PoseAnimator.characterImage st /\
   PoseAnimator.poseImage st' = PoseAnimator.poseImage st /\
   PoseAnimator.drawnPose st' = PoseAnimator.drawnPose st /\
   PoseAnimator.poseSourceTab st' = PoseAnimator.poseSourceTab st /\
   PoseAnimator.refinePrompt st' = PoseAnimator.refinePrompt st).
Proof.
  unfold PoseAnimator.handleAnimate. split.
  - intros [H|H].
    + by destruct (PoseAnimator.characterImage st) as [[|c cs]|].
    + destruct (PoseAnimator.characterImage st) as [[|c cs]|]; try done.
      by destruct (PoseAnimator.finalPoseImage st) as [[|p ps]|].
  - intros Hc Hp.
    apply truthy_Some in Hc as (c & cs & Hc).
    apply truthy_Some in Hp as (p & ps & Hp).
    rewrite Hc, Hp.
    destruct (generateStyledImage endpoint posePrompt [c :: cs; p :: ps]
                instructions w) as [[resultUrl|[message|json]] w'];
      cbn; (split; [done|]); (split; [done|]); (split; [|done]).
    + left. eauto.
    + right. eauto.
    + right. eauto.
Qed.

Lemma pose_animate_outcome_witness :
  let st' := fst (PoseAnimator.handleAnimate imageEndpoint None samplePoseState []) in
  PoseAnimator.isLoading st' = false /\
  PoseAnimator.view st' = PoseAnimator.result /\
  ((exists resultUrl,
       PoseAnimator.generatedImage st' = Some resultUrl /\
       PoseAnimator.error st' = None) \/
   (exists message,
       PoseAnimator.generatedImage st' = None /\
       PoseAnimator.error st' = Some message)) /\
  PoseAnimator.characterImage st'
  = PoseAnimator.characterImage samplePoseState /\
  PoseAnimator.poseImage st' = PoseAnimator.poseImage samplePoseState /\
  PoseAnimator.drawnPose st' = PoseAnimator.drawnPose samplePoseState /\
  PoseAnimator.poseSourceTab st' = PoseAnimator.poseSourceTab samplePoseState /\
  PoseAnimator.refinePrompt st' = PoseAnimator.refinePrompt samplePoseState.
Proof.
  apply (proj2 (pose_animate_outcome imageEndpoint None samplePoseState []));
    reflexivity.
Defined.

(** X20. The request of the pose transfer holds the character's image part
    first, then the image part of the pose of the selected tab, then the
    instruction text, the template with the regeneration instructions
    where given. *)
Theorem pose_animate_sends_character_then_pose (endpoint : Endpoint)
  (instructions : option jsstring) (st : PoseAnimator.State) (w : World)
  (character pose mc dc mp dp : jsstring) :
  PoseAnimator.characterImage st = Some character ->
  PoseAnimator.finalPoseImage st = Some pose ->
  decode character = Some (mc, dc) ->
  decode pose = Some (mp, dp) ->
  exists st' rest,
    PoseAnimator.handleAnimate endpoint instructions st w
    = (st', w ++ [EvCall [{| text := None;
                             inlineData := Some {| mimeType := Some mc;
                                                   data := Some dc |} |};
                          {| text := None;
                             inlineData := Some {| mimeType := Some mp;
                                                   data := Some dp |} |};
                          textPartOf (withInstructions posePrompt instructions)]]
            ++ rest).
Proof.
  unfold decode, PoseAnimator.handleAnimate. intros -> -> Hc Hp.
  destruct character as [|c cs]; [done|]. destruct pose as [|p ps]; [done|].
  unfold generateStyledImage. cbn [length Nat.eqb]. unfold bind, lift.
  cbn [map_result]. unfold decodeImagePart. rewrite Hc, Hp.
  destruct (requestImage_first_call endpoint
              (js "The AI model failed to generate an image.")
              ([imagePartOf mc dc; imagePartOf mp dp]
               ++ [textPartOf (withInstructions posePrompt instructions)]) w)
    as (r & rest & ->).
  by eexists _, rest.
Qed.

Lemma pose_animate_sends_character_then_pose_witness :
  exists st' rest,
    PoseAnimator.handleAnimate imageEndpoint None samplePoseState []
    = (st', [] ++ [EvCall [{| text := None;
                              inlineData := Some {| mimeType := Some (js "image/png");
                                                    data := Some (js "iVBORw0KGgo=") |} |};
                           {| text := None;
                              inlineData := Some {| mimeType := Some (js "image/jpeg");
                                                    data := Some (js "/9j/4AAQ") |} |};
                           textPartOf (withInstructions posePrompt None)]]
             ++ rest).
Proof.
  apply (pose_animate_sends_character_then_pose imageEndpoint None
           samplePoseState [] pngUrl jpegUrl); reflexivity.
Defined.

(** X21. The pose button looks at either pose, the handler only at the pose
    of the selected tab: with a character image, no request running, and a
    pose present only on the tab that is not selected, the button is
    enabled and pressing it does nothing. *)
Theorem pose_button_enabled_but_inert (endpoint : Endpoint)
  (instructions : option jsstring) (st : PoseAnimator.State) (w : World) :
  truthy (PoseAnimator.characterImage st) = true ->
  PoseAnimator.isLoading st = false ->
  (PoseAnimator.poseSourceTab st = PoseAnimator.draw /\
   truthy (PoseAnimator.drawnPose st) = false /\
   truthy (PoseAnimator.poseImage st) = true) \/
  (PoseAnimator.poseSourceTab st = PoseAnimator.upload /\
   truthy (PoseAnimator.poseImage st) = false /\
   truthy (PoseAnimator.drawnPose st) = true) ->
  PoseAnimator.isAnimateDisabled st = false /\
  PoseAnimator.handleAnimate endpoint instructions st w = (st, w).
Proof.
  intros Hc Hl Hcase.
  unfold PoseAnimator.isAnimateDisabled, PoseAnimator.handleAnimate,
    PoseAnimator.finalPoseImage, orValue.
  rewrite Hc, Hl.
  destruct Hcase as [(-> & Hd & Hp)|(-> & Hp & Hd)]; rewrite Hp.
  - rewrite Hp. split; [done|].
    destruct (PoseAnimator.characterImage st) as [[|c cs]|]; try done.
    by destruct (PoseAnimator.drawnPose st) as [[|d ds]|].
  - rewrite Hd. split; [done|].
    destruct (PoseAnimator.characterImage st) as [[|c cs]|]; try done.
    by destruct (PoseAnimator.poseImage st) as [[|d ds]|].
Qed.

Lemma pose_button_enabled_but_inert_witness :
  PoseAnimator.isAnimateDisabled drawTabPoseState = false /\
  PoseAnimator.handleAnimate imageEndpoint None drawTabPoseState []
  = (drawTabPoseState, []).
Proof.
  apply (pose_button_enabled_but_inert imageEndpoint None drawTabPoseState []);
    [reflexivity | reflexivity |].
  left. repeat split.
Defined.

(** ** TimeMachine *)

(** X22. For a woman the facial-feature options play no part: whatever the
    preset and the custom facial feature are set to, the prompt is the same
    and so is the exchange with the endpoint. *)
Theorem era_prompt_ignores_facial_for_female (t : jsstring -> jsstring)
  (endpoint : Endpoint) (instructions : option jsstring)
  (st : TimeMachine.State) (w : World) (preset custom : jsstring) :
  TimeMachine.gender st = female ->
  let st2 := TimeMachine.setCustomFacial custom (TimeMachine.setFacial preset st) in
  TimeMachine.buildPrompt t st2 = TimeMachine.buildPrompt t st /\
  snd (TimeMachine.handleGenerate t endpoint instructions st2 w)
  = snd (TimeMachine.handleGenerate t endpoint instructions st w).
Proof.
  intros Hg st2. subst st2.
  assert (Hp : TimeMachine.buildPrompt t
                 (TimeMachine.setCustomFacial custom
                    (TimeMachine.setFacial preset st))
               = TimeMachine.buildPrompt t st).
  { destruct st. cbn in Hg. subst. reflexivity. }
  split; [exact Hp|].
  unfold TimeMachine.handleGenerate. rewrite Hp.
  change (TimeMachine.uploadedImage
            (TimeMachine.setCustomFacial custom (TimeMachine.setFacial preset st)))
    with (TimeMachine.uploadedImage st).
  change (TimeMachine.refinement instructions
            (TimeMachine.setCustomFacial custom (TimeMachine.setFacial preset st)))
    with (TimeMachine.refinement instructions st).
  destruct (TimeMachine.uploadedImage st) as [[|c s]|]; try done.
  by destruct (generateStyledImage endpoint (TimeMachine.buildPrompt t st)
                 [c :: s] (TimeMachine.refinement instructions st) w).
Qed.

Lemma era_prompt_ignores_facial_for_female_witness :
  let st2 :=
    TimeMachine.setCustomFacial (js "a goatee")
      (TimeMachine.setFacial [] sampleEraState) in
  TimeMachine.buildPrompt keyAsLabel st2
  = TimeMachine.buildPrompt keyAsLabel sampleEraState /\
  snd (TimeMachine.handleGenerate keyAsLabel imageEndpoint None st2 [])
  = snd (TimeMachine.handleGenerate keyAsLabel imageEndpoint None
           sampleEraState []).
Proof.
  apply (era_prompt_ignores_facial_for_female keyAsLabel imageEndpoint None
           sampleEraState [] [] (js "a goatee")).
  reflexivity.
Defined.

(** X23. What is typed into a custom field wins over the preset of its
    group: with a custom hair style, clothing, facial feature or background
    typed in, the prompt does not depend on the preset chosen for it. *)
Theorem era_custom_overrides_preset (t : jsstring -> jsstring)
  (st : TimeMachine.State) (preset : jsstring) :
  (TimeMachine.customHair st <> [] ->
   TimeMachine.buildPrompt t (TimeMachine.setHair preset st)
   = TimeMachine.buildPrompt t st) /\
  (TimeMachine.customClothing st <> [] ->
   TimeMachine.buildPrompt t (TimeMachine.setClothing preset st)
   = TimeMachine.buildPrompt t st) /\
  (TimeMachine.customFacial st <> [] ->
   TimeMachine.buildPrompt t (TimeMachine.setFacial preset st)
   = TimeMachine.buildPrompt t st) /\
  (TimeMachine.customBackground st <> [] ->
   TimeMachine.buildPrompt t (TimeMachine.setBackground preset st)
   = TimeMachine.buildPrompt t st).
Proof.
  destruct st as [v up gi il er e g h c f b ch cc cf cb rp]. cbn.
  repeat split; intros Hne; unfold TimeMachine.buildPrompt; cbn.
  - by destruct ch.
  - by destruct cc.
  - by destruct cf.
  - by destruct cb.
Qed.

Lemma era_custom_overrides_preset_witness :
  TimeMachine.buildPrompt keyAsLabel
    (TimeMachine.setHair (js "Finger Waves") sampleEraState)
  = TimeMachine.buildPrompt keyAsLabel sampleEraState.
Proof.
  apply (proj1 (era_custom_overrides_preset keyAsLabel sampleEraState
                  (js "Finger Waves"))).
  discriminate.
Defined.

(** Whatever [generateStyledImage] throws is an [Error] object. *)
Lemma generateStyledImage_throws_Error (endpoint : Endpoint) (prompt : jsstring)
  (imageDataUrls : list jsstring) (additionalInstructions : option jsstring)
  (w : World) (e : Thrown) :
  fst (generateStyledImage endpoint prompt imageDataUrls additionalInstructions w)
  = Throw e ->
  exists message, e = JsError message.
Proof.
  unfold generateStyledImage.
  destruct imageDataUrls as [|u0 urls]; [intros [= <-]; by eexists|].
  cbn [length Nat.eqb]. unfold bind, lift.
  destruct (decode_all_or_some (u0 :: urls)) as [[decoded Hall]|(u & Hin & Hu)].
  - rewrite (map_result_decode_ok _ _ Hall). intros Hfail.
    destruct (requestImage_failure _ _ _ _ _ Hfail) as [detail ->]. by eexists.
  - rewrite (map_result_decode_rejects _ u Hin Hu). intros [= <-]. by eexists.
Qed.

(** With an image uploaded, [handleGenerate] is one request and what
    follows it. *)
Lemma handleGenerate_with_image (t : jsstring -> jsstring) (endpoint : Endpoint)
  (instructions : option jsstring) (st : TimeMachine.State) (w : World)
  (image : jsstring) :
  TimeMachine.uploadedImage st = Some image -> image <> [] ->
  TimeMachine.handleGenerate t endpoint instructions st w =
  (TimeMachine.settled st
     (fst (generateStyledImage endpoint (TimeMachine.buildPrompt t st) [image]
             (TimeMachine.refinement instructions st) w)),
   snd (generateStyledImage endpoint (TimeMachine.buildPrompt t st) [image]
          (TimeMachine.refinement instructions st) w)).
Proof.
  unfold TimeMachine.handleGenerate. intros -> Hne.
  destruct image as [|c s]; [done|].
  by destruct (generateStyledImage _ _ _ _ _).
Qed.

(** X24. [handleGenerate] of the time machine does nothing without an
    uploaded image.  With one it asks [generateStyledImage] for the prompt
    built from the options, the uploaded image alone and, as refinement,
    the instructions it was given or else the stored refine prompt; the
    log it leaves is the log of that request, and it ends with the spinner
    off and the result view shown.  The request either returns an image or
    throws an [Error]: when it returns an image, that image is the portrait
    and no error is set; when it throws, the message of that error is set
    and the portrait is whatever it was before, since it is not cleared
    when a run starts. *)
Theorem era_generate_outcome (t : jsstring -> jsstring) (endpoint : Endpoint)
  (instructions : option jsstring) (st : TimeMachine.State) (w : World) :
  (TimeMachine.uploadedImage st = None \/ TimeMachine.uploadedImage st = Some [] ->
   TimeMachine.handleGenerate t endpoint instructions st w = (st, w)) /\
  (forall (image : jsstring) (refine : option jsstring),
      TimeMachine.uploadedImage st = Some image -> image <> [] ->
      ((exists given, instructions = Some given /\ given <> [] /\
                      refine = Some given) \/
       ((instructions = None \/ instructions = Some []) /\
        refine = Some (TimeMachine.refinePrompt st))) ->
      let request :=
        generateStyledImage endpoint (TimeMachine.buildPrompt t st) [image]
          refine w in
      let st' := fst (TimeMachine.handleGenerate t endpoint instructions st w) in
      snd (TimeMachine.handleGenerate t endpoint instructions st w) = snd request /\
      TimeMachine.isLoading st' = false /\
      TimeMachine.view st' = TimeMachine.result /\
      ((exists resultUrl, fst request = Ok resultUrl) \/
       (exists message, fst request = Throw (JsError message))) /\
      (forall resultUrl,
          fst request = Ok resultUrl ->
          TimeMachine.generatedImage st' = Some resultUrl /\
          TimeMachine.error st' = None) /\
      (forall message,
          fst request = Throw (JsError message) ->
          TimeMachine.error st' = Some message /\
          TimeMachine.generatedImage st' = TimeMachine.generatedImage st)).
Proof.
  split.
  - unfold TimeMachine.handleGenerate. by intros [-> | ->].
  - intros image refine Hu Hne Hrefine request st'.
    assert (Hr : TimeMachine.refinement instructions st = refine).
    { unfold TimeMachine.refinement.
      destruct Hrefine as [(given & -> & Hgiven & ->)|[[-> | ->] ->]];
        [by destruct given | done | done]. }
    subst st' request.
    rewrite (handleGenerate_with_image t endpoint instructions st w image Hu Hne), Hr.
    destruct (generateStyledImage endpoint (TimeMachine.buildPrompt t st)
                [image] refine w) as [outcome w'] eqn:Hrun.
    cbn [fst snd]. split; [done|]. split; [done|]. split; [done|].
    split; [|split].
    + destruct outcome as [resultUrl|e]; [left; by eexists|]. right.
      destruct (generateStyledImage_throws_Error endpoint
                  (TimeMachine.buildPrompt t st) [image] refine w e)
        as [message ->]; [by rewrite Hrun|]. by eexists.
    + by intros resultUrl ->.
    + by intros message ->.
Qed.

Lemma era_generate_outcome_witness :
  TimeMachine.error
    (fst (TimeMachine.handleGenerate keyAsLabel quotaEndpoint None
            sampleEraState []))
  = Some (js "The AI model failed to generate an image. Details: 429 RESOURCE_EXHAUSTED: quota exceeded") /\
  TimeMachine.generatedImage
    (fst (TimeMachine.handleGenerate keyAsLabel quotaEndpoint None
            sampleEraState []))
  = TimeMachine.generatedImage sampleEraState.
Proof.
  apply (proj2 (proj2 (proj2 (proj2 (proj2
           (proj2 (era_generate_outcome keyAsLabel quotaEndpoint None
                     sampleEraState [])
              pngUrl (Some [])
              eq_refl
              ltac:(discriminate)
              (or_intror (conj (or_introl eq_refl) eq_refl)))))))).
  reflexivity.
Defined.

(** ** Footer *)

(** X25. The idea shown in the footer goes round the list: after [n] ticks
    of the interval the index is [n] modulo the number of ideas, so it
    always names one of them. *)
Theorem footer_index_cycles (n : nat) :
  let index := Nat.iter n Footer.tick 0%nat in
  index = (n mod 6)%nat /\
  is_Some (Footer.REMIX_IDEAS !! index).
Proof.
  intros index.
  assert (Hindex : index = (n mod 6)%nat).
  { subst index. induction n as [|n IH]; [done|].
    change (Nat.iter (S n) Footer.tick 0%nat)
      with (Footer.tick (Nat.iter n Footer.tick 0%nat)).
    rewrite IH. unfold Footer.tick.
    change (length Footer.REMIX_IDEAS) with 6%nat.
    rewrite Nat.Div0.add_mod_idemp_l. f_equal. lia. }
  split; [exact Hindex|].
  apply lookup_lt_is_Some. rewrite Hindex.
  change (length Footer.REMIX_IDEAS) with 6%nat.
  apply Nat.mod_upper_bound. lia.
Qed.
